(** * Name-to-id resolution (passwd/pwnam.c)

    A shallow embedding of [de_username_to_uid] and [de_groupname_to_gid]
    together with the part of the C library they talk to: [sysconf],
    [realloc], [free], [getpwnam_r] and [getgrnam_r].

    The C library is the environment of the two functions.  Its answers are
    given by an [OS] record of oracles that may depend on everything that
    happened before (the event log); the heap of live allocations is kept
    explicitly so that leaks can be observed.

    - Integers: [size_t] and [long] are [Z] with the wrap-around of
      [size_t] written out ([to_size]); the width is 32 or 64 bits.
    - The output parameter: the cell behind [uid] (or [gid]) holds a value
      at the call, and the value it holds at the return is part of the
      outcome.
    - The loop: [goto again] is run with fuel; a call that is out of fuel
      has no outcome.  Nothing bounds the number of passes in the source.
    - The allocator: an oracle decides whether a request is granted; a
      granted request yields an address that is not live.  For
      [realloc(p, 0)] ISO C allows two behaviours, both modelled. *)

From stdpp Require Import gmap strings list fin_maps.
From Stdlib Require Import ZArith Lia.

Local Open Scope Z_scope.

(** ** Integer types *)

(** [size_t] and [long] have the same width on the platforms that provide
    [getpwnam_r]: 32 bits (ILP32) or 64 bits (LP64). *)
Inductive data_model := ILP32 | LP64.

Definition size_bits (dm : data_model) : Z :=
  match dm with ILP32 => 32 | LP64 => 64 end.

Definition PTRDIFF_MAX (dm : data_model) : Z := 2 ^ (size_bits dm - 1) - 1.

(** Conversion of an integer to [size_t]: reduction modulo [2 ^ size_bits]. *)
Definition to_size (dm : data_model) (z : Z) : Z := z mod 2 ^ size_bits dm.

(** ** Data *)

Definition ptr := positive.

Inductive sysconf_name := _SC_GETPW_R_SIZE_MAX | _SC_GETGR_R_SIZE_MAX.

Record passwd := {
  pw_name : string;
  pw_uid : Z;
  pw_gid : Z;
  pw_dir : string;
  pw_shell : string
}.

Record group := {
  gr_name : string;
  gr_gid : Z;
  gr_mem : list string
}.

(** ** The environment *)

(** Calls into the C library, most recent first, with their results. *)
Inductive event :=
| EvSysconf (name : sysconf_name) (ret : Z)
| EvRealloc (old : option ptr) (size : Z) (ret : option ptr)
| EvGetpwnam (name : string) (buflen : Z) (ec : Z) (pp : option passwd)
| EvGetgrnam (name : string) (buflen : Z) (ec : Z) (pp : option group)
| EvFree (p : ptr).

(** What the C library answers.  [ERANGE] comes from <errno.h>; POSIX only
    says it is positive.  A lookup answers with its return value [ec] and
    with [pp]: [None] is a null result pointer, [Some e] a result pointer to
    the caller's record, filled with [e].  [os_realloc_zero_frees] picks one
    of the two behaviours ISO C allows for [realloc(p, 0)]. *)
Record OS := {
  os_model : data_model;
  ERANGE : positive;
  os_realloc_zero_frees : bool;
  os_sysconf : list event → sysconf_name → Z;
  os_realloc_grants : list event → Z → bool;
  os_getpwnam_r : list event → string → Z → Z * option passwd;
  os_getgrnam_r : list event → string → Z → Z * option group
}.

Record world := {
  log : list event;
  heap : gmap positive Z
}.

Definition log_event (e : event) (wd : world) : world :=
  {| log := e :: log wd; heap := heap wd |}.

Definition sysconf (os : OS) (name : sysconf_name) (wd : world) : Z * world :=
  let r := os_sysconf os (log wd) name in
  (r, log_event (EvSysconf name r) wd).

(** [realloc(buf, size)]: on success the old block is gone and a block of
    [size] bytes is live at the returned address; on failure the result is
    null and the old block is still live.  Where [realloc(p, 0)] frees, it
    releases [p] and returns null. *)
Definition realloc (os : OS) (buf : option ptr) (size : Z) (wd : world)
  : option ptr * world :=
  match buf with
  | Some p =>
    if (size =? 0) && os_realloc_zero_frees os then
      (None, {| log := EvRealloc buf size None :: log wd;
                heap := delete p (heap wd) |})
    else if os_realloc_grants os (log wd) size then
      let h := delete p (heap wd) in
      let q := fresh (dom h) in
      (Some q, {| log := EvRealloc buf size (Some q) :: log wd;
                  heap := <[q := size]> h |})
    else (None, log_event (EvRealloc buf size None) wd)
  | None =>
    if os_realloc_grants os (log wd) size then
      let q := fresh (dom (heap wd)) in
      (Some q, {| log := EvRealloc buf size (Some q) :: log wd;
                  heap := <[q := size]> (heap wd) |})
    else (None, log_event (EvRealloc buf size None) wd)
  end.

Definition free (p : ptr) (wd : world) : world :=
  {| log := EvFree p :: log wd; heap := delete p (heap wd) |}.

Definition getpwnam_r (os : OS) (name : string) (buflen : Z) (wd : world)
  : Z * option passwd * world :=
  let r := os_getpwnam_r os (log wd) name buflen in
  (r.1, r.2, log_event (EvGetpwnam name buflen r.1 r.2) wd).

Definition getgrnam_r (os : OS) (name : string) (buflen : Z) (wd : world)
  : Z * option group * world :=
  let r := os_getgrnam_r os (log wd) name buflen in
  (r.1, r.2, log_event (EvGetgrnam name buflen r.1 r.2) wd).

(** ** Control flow *)

(** A call is either at the label [again] with its locals [buf] and
    [buflen], or has returned [ret] with the cell behind the output pointer
    holding [out]. *)
Inductive state :=
| Searching (wd : world) (buf : option ptr) (buflen : Z)
| Returned (wd : world) (ret : Z) (out : Z).

Record outcome := {
  out_world : world;
  out_ret : Z;
  out_id : Z
}.

(** [goto again]: run the body from the label until it returns. *)
Fixpoint goto_again (body : world → option ptr → Z → state)
    (fuel : nat) (s : state) : option outcome :=
  match s with
  | Returned wd ret out =>
    Some {| out_world := wd; out_ret := ret; out_id := out |}
  | Searching wd buf buflen =>
    match fuel with
    | O => None
    | S fuel => goto_again body fuel (body wd buf buflen)
    end
  end.

(** ** de_username_to_uid *)

(** Lines 10-18: the locals and the size hint. *)
Definition de_username_to_uid_entry (os : OS) (wd : world) : state :=
  let buflen := 1024 in
  let '(sz, wd) := sysconf os _SC_GETPW_R_SIZE_MAX wd in
  let buflen :=
    if to_size (os_model os) sz >? buflen then to_size (os_model os) sz
    else buflen in
  Searching wd None buflen.

(** Lines 20-36: from the label [again] to the next jump or return.  [uid]
    is what the cell behind the output pointer holds at the call. *)
Definition de_username_to_uid_again (os : OS) (name : string) (uid : Z)
    (wd : world) (buf : option ptr) (buflen : Z) : state :=
  let '(buf, wd) := realloc os buf buflen wd in
  match buf with
  | None => Returned wd (-1) uid
  | Some b =>
    let '(ec, pp, wd) := getpwnam_r os name buflen wd in
    if ec =? Z.pos (ERANGE os) then
      Searching wd (Some b) (to_size (os_model os) (buflen * 2))
    else
      match ec =? 0, pp with
      | true, Some p => Returned (free b wd) 0 (pw_uid p)
      | _, _ => Returned (free b wd) (-1) uid
      end
  end.

Definition de_username_to_uid (os : OS) (name : string) (uid : Z)
    (fuel : nat) (wd : world) : option outcome :=
  goto_again (de_username_to_uid_again os name uid) fuel
    (de_username_to_uid_entry os wd).

(** ** de_groupname_to_gid *)

Definition de_groupname_to_gid_entry (os : OS) (wd : world) : state :=
  let buflen := 1024 in
  let '(sz, wd) := sysconf os _SC_GETGR_R_SIZE_MAX wd in
  let buflen :=
    if to_size (os_model os) sz >? buflen then to_size (os_model os) sz
    else buflen in
  Searching wd None buflen.

Definition de_groupname_to_gid_again (os : OS) (name : string) (gid : Z)
    (wd : world) (buf : option ptr) (buflen : Z) : state :=
  let '(buf, wd) := realloc os buf buflen wd in
  match buf with
  | None => Returned wd (-1) gid
  | Some b =>
    let '(ec, pp, wd) := getgrnam_r os name buflen wd in
    if ec =? Z.pos (ERANGE os) then
      Searching wd (Some b) (to_size (os_model os) (buflen * 2))
    else
      match ec =? 0, pp with
      | true, Some p => Returned (free b wd) 0 (gr_gid p)
      | _, _ => Returned (free b wd) (-1) gid
      end
  end.

Definition de_groupname_to_gid (os : OS) (name : string) (gid : Z)
    (fuel : nat) (wd : world) : option outcome :=
  goto_again (de_groupname_to_gid_again os name gid) fuel
    (de_groupname_to_gid_entry os wd).

(** ** One algorithm over a database *)

(** What differs between the two functions: the size hint asked for, the
    lookup called (with the record type it fills) and the field copied
    out. *)
Record database := {
  db_entry : Type;
  db_sysconf_name : sysconf_name;
  db_lookup : OS → list event → string → Z → Z * option db_entry;
  db_event : string → Z → Z → option db_entry → event;
  db_id : db_entry → Z
}.

Definition passwd_db : database := {|
  db_entry := passwd;
  db_sysconf_name := _SC_GETPW_R_SIZE_MAX;
  db_lookup := os_getpwnam_r;
  db_event := EvGetpwnam;
  db_id := pw_uid
|}.

Definition group_db : database := {|
  db_entry := group;
  db_sysconf_name := _SC_GETGR_R_SIZE_MAX;
  db_lookup := os_getgrnam_r;
  db_event := EvGetgrnam;
  db_id := gr_gid
|}.

Definition getnam_r (db : database) (os : OS) (name : string) (buflen : Z)
    (wd : world) : Z * option (db_entry db) * world :=
  let r := db_lookup db os (log wd) name buflen in
  (r.1, r.2, log_event (db_event db name buflen r.1 r.2) wd).

Definition resolve_entry (db : database) (os : OS) (wd : world) : state :=
  let '(sz, wd) := sysconf os (db_sysconf_name db) wd in
  Searching wd None (Z.max 1024 (to_size (os_model os) sz)).

Definition resolve_again (db : database) (os : OS) (name : string) (id : Z)
    (wd : world) (buf : option ptr) (buflen : Z) : state :=
  match realloc os buf buflen wd with
  | (None, wd) => Returned wd (-1) id
  | (Some b, wd) =>
    match getnam_r db os name buflen wd with
    | (ec, pp, wd) =>
      if ec =? Z.pos (ERANGE os) then
        Searching wd (Some b) (to_size (os_model os) (buflen * 2))
      else
        match ec =? 0, pp with
        | true, Some p => Returned (free b wd) 0 (db_id db p)
        | _, _ => Returned (free b wd) (-1) id
        end
    end
  end.

Definition resolve (db : database) (os : OS) (name : string) (id : Z)
    (fuel : nat) (wd : world) : option outcome :=
  goto_again (resolve_again db os name id) fuel (resolve_entry db os wd).

(** ** The two operations, by category *)

Inductive category := User | Group.

Definition database_of (c : category) : database :=
  match c with User => passwd_db | Group => group_db end.

Definition de_name_to_id_entry (c : category) : OS → world → state :=
  match c with
  | User => de_username_to_uid_entry
  | Group => de_groupname_to_gid_entry
  end.

Definition de_name_to_id_again (c : category)
  : OS → string → Z → world → option ptr → Z → state :=
  match c with
  | User => de_username_to_uid_again
  | Group => de_groupname_to_gid_again
  end.

Definition de_name_to_id (c : category)
  : OS → string → Z → nat → world → option outcome :=
  match c with
  | User => de_username_to_uid
  | Group => de_groupname_to_gid
  end.

(** ** Runs *)

(** The state of a call after [n] passes through the body. *)
Fixpoint state_after (body : world → option ptr → Z → state)
    (n : nat) (s : state) : state :=
  match n with
  | O => s
  | S n =>
    match s with
    | Searching wd buf buflen => state_after body n (body wd buf buflen)
    | Returned _ _ _ => s
    end
  end.

Definition state_world (s : state) : world :=
  match s with Searching wd _ _ => wd | Returned wd _ _ => wd end.

Definition state_buflen (s : state) : option Z :=
  match s with Searching _ _ b => Some b | Returned _ _ _ => None end.

Definition returned (s : state) : option outcome :=
  match s with
  | Searching _ _ _ => None
  | Returned wd ret out =>
    Some {| out_world := wd; out_ret := ret; out_id := out |}
  end.

(** The state in which call [c] is after [n] passes. *)
Definition call_state (c : category) (os : OS) (name : string) (id : Z)
    (n : nat) (wd : world) : state :=
  state_after (de_name_to_id_again c os name id) n (de_name_to_id_entry c os wd).

(** ** Vocabulary of the statements *)

(** One pass through the body of the loop, from the label [again] to the jump
    back or to the return, by what the allocator and the database answer. *)
Inductive pass (db : database) (os : OS) (name : string) (id : Z)
    (wd : world) (buf : option ptr) (b : Z) : state → Prop :=
| pass_no_memory wd1 :
    realloc os buf b wd = (None, wd1) →
    pass db os name id wd buf b (Returned wd1 (-1) id)
| pass_retry q wd1 pp :
    realloc os buf b wd = (Some q, wd1) →
    db_lookup db os (log wd1) name b = (Z.pos (ERANGE os), pp) →
    pass db os name id wd buf b
      (Searching (log_event (db_event db name b (Z.pos (ERANGE os)) pp) wd1)
         (Some q) (to_size (os_model os) (b * 2)))
| pass_found q wd1 e :
    realloc os buf b wd = (Some q, wd1) →
    db_lookup db os (log wd1) name b = (0, Some e) →
    pass db os name id wd buf b
      (Returned (free q (log_event (db_event db name b 0 (Some e)) wd1))
         0 (db_id db e))
| pass_no_entry q wd1 :
    realloc os buf b wd = (Some q, wd1) →
    db_lookup db os (log wd1) name b = (0, None) →
    pass db os name id wd buf b
      (Returned (free q (log_event (db_event db name b 0 None) wd1)) (-1) id)
| pass_error q wd1 ec pp :
    realloc os buf b wd = (Some q, wd1) →
    db_lookup db os (log wd1) name b = (ec, pp) →
    ec ≠ Z.pos (ERANGE os) → ec ≠ 0 →
    pass db os name id wd buf b
      (Returned (free q (log_event (db_event db name b ec pp) wd1)) (-1) id).

(** What a call holds of the heap: nothing, or the one block behind [buf],
    on top of the heap [h0] it was entered with. *)
Definition holds (h0 : gmap positive Z) (buf : option ptr)
    (h : gmap positive Z) : Prop :=
  match buf with
  | None => h = h0
  | Some q => h0 !! q = None ∧ ∃ n, h = <[q := n]> h0
  end.

(** The heap invariant of the loop, and what is live once the call is over:
    the heap of the caller, or that heap and the block a failed growth left
    behind. *)
Definition heap_inv (h0 : gmap positive Z) (s : state) : Prop :=
  match s with
  | Searching wd buf _ => holds h0 buf (heap wd)
  | Returned wd ret _ =>
    heap wd = h0
    ∨ ret = -1 ∧ ∃ p m b l,
        log wd = EvRealloc (Some p) b None :: l
        ∧ h0 !! p = None ∧ heap wd = <[p := m]> h0
  end.

(** How a call ended, read off the last calls it made: the last lookup, with
    the answer the database gave, followed by the release of the buffer; or a
    [realloc] that returned null. *)
Definition last_lookup (db : database) (os : OS) (name : string)
    (ec : Z) (pp : option (db_entry db)) (l : list event) : Prop :=
  ∃ q b l', l = EvFree q :: db_event db name b ec pp :: l'
            ∧ db_lookup db os l' name b = (ec, pp).

Definition entry_found (db : database) (os : OS) (name : string)
    (e : db_entry db) (l : list event) : Prop :=
  last_lookup db os name 0 (Some e) l.

Definition no_entry (db : database) (os : OS) (name : string)
    (l : list event) : Prop :=
  last_lookup db os name 0 None l.

Definition lookup_error (db : database) (os : OS) (name : string)
    (l : list event) : Prop :=
  ∃ ec pp, last_lookup db os name ec pp l ∧ ec ≠ 0 ∧ ec ≠ Z.pos (ERANGE os).

Definition allocation_failed (l : list event) : Prop :=
  ∃ old b l', l = EvRealloc old b None :: l'.

Definition verdict (db : database) (os : OS) (name : string) (id : Z)
    (s : state) : Prop :=
  match s with
  | Searching _ _ _ => True
  | Returned wd ret out =>
    ret = 0 ∧ (∃ e, entry_found db os name e (log wd) ∧ out = db_id db e)
    ∨ ret = -1 ∧ out = id
      ∧ (no_entry db os name (log wd) ∨ lookup_error db os name (log wd)
         ∨ allocation_failed (log wd))
  end.

(** The buffer length is a [size_t] value all along. *)
Definition buflen_in_range (dm : data_model) (s : state) : Prop :=
  match s with
  | Searching _ _ b => 0 ≤ b < 2 ^ size_bits dm
  | Returned _ _ _ => True
  end.

(** An allocator that hands out no block above PTRDIFF_MAX bytes. *)
Definition allocator_bounded (os : OS) : Prop :=
  ∀ l m, os_realloc_grants os l m = true → m ≤ PTRDIFF_MAX (os_model os).

Definition buflen_positive (dm : data_model) (s : state) : Prop :=
  match s with
  | Searching _ _ b => 0 < b < 2 ^ size_bits dm
  | Returned _ _ _ => True
  end.

Definition is_sysconf (e : event) : bool :=
  match e with EvSysconf _ _ => true | _ => false end.

(** ** Sample environments *)

Definition world0 : world := {| log := []; heap := ∅ |}.

Definition root_pw : passwd :=
  {| pw_name := "root"; pw_uid := 0; pw_gid := 0;
     pw_dir := "/root"; pw_shell := "/bin/sh" |}.

Definition wheel_gr : group :=
  {| gr_name := "wheel"; gr_gid := 10; gr_mem := ["root"] |}.

(** A glibc-like environment: a size hint of 1024, no block above
    PTRDIFF_MAX, records of 4096 bytes for "root" and "wheel", an I/O error
    (EIO = 5) for "broken" and no entry for any other name. *)
Definition os_linux : OS := {|
  os_model := LP64;
  ERANGE := 34%positive;
  os_realloc_zero_frees := true;
  os_sysconf := λ _ _, 1024;
  os_realloc_grants := λ _ n, n <=? PTRDIFF_MAX LP64;
  os_getpwnam_r := λ _ name n,
    if String.eqb name "root" then
      if n <? 4096 then (34, None) else (0, Some root_pw)
    else if String.eqb name "broken" then (5, None)
    else (0, None);
  os_getgrnam_r := λ _ name n,
    if String.eqb name "wheel" then
      if n <? 4096 then (34, None) else (0, Some wheel_gr)
    else if String.eqb name "broken" then (5, None)
    else (0, None)
|}.

(** An environment short of memory: 1024 bytes can be had, more cannot, and
    the records of "root" and "wheel" need 4096. *)
Definition os_low_memory : OS := {|
  os_model := LP64;
  ERANGE := 34%positive;
  os_realloc_zero_frees := true;
  os_sysconf := λ _ _, 1024;
  os_realloc_grants := λ _ n, n <=? 1024;
  os_getpwnam_r := λ _ name n,
    if String.eqb name "root" then
      if n <? 4096 then (34, None) else (0, Some root_pw)
    else (0, None);
  os_getgrnam_r := λ _ name n,
    if String.eqb name "wheel" then
      if n <? 4096 then (34, None) else (0, Some wheel_gr)
    else (0, None)
|}.

(** An environment whose size hint is below the floor of 1024. *)
Definition os_small_hint : OS := {|
  os_model := LP64;
  ERANGE := 34%positive;
  os_realloc_zero_frees := true;
  os_sysconf := λ _ _, 512;
  os_realloc_grants := λ _ n, n <=? PTRDIFF_MAX LP64;
  os_getpwnam_r := λ _ _ _, (0, Some root_pw);
  os_getgrnam_r := λ _ _ _, (0, Some wheel_gr)
|}.

(** An environment whose size hint changes: 2048 before any call into the C
    library was made, 8192 from then on. *)
Definition os_changing_hint : OS := {|
  os_model := LP64;
  ERANGE := 34%positive;
  os_realloc_zero_frees := true;
  os_sysconf := λ l _, match l with [] => 2048 | _ => 8192 end;
  os_realloc_grants := λ _ n, n <=? PTRDIFF_MAX LP64;
  os_getpwnam_r := λ _ _ _, (0, Some root_pw);
  os_getgrnam_r := λ _ _ _, (0, Some wheel_gr)
|}.


(** A 32-bit environment with no bound on allocations, in which
    [realloc(p, 0)] returns a block, and whose records for every name need
    more than 2^31 bytes. *)
Definition os_oversized_record : OS := {|
  os_model := ILP32;
  ERANGE := 34%positive;
  os_realloc_zero_frees := false;
  os_sysconf := λ _ _, 1024;
  os_realloc_grants := λ _ _, true;
  os_getpwnam_r := λ _ _ n,
    if n <=? 2 ^ 31 then (34, None) else (0, Some root_pw);
  os_getgrnam_r := λ _ _ n,
    if n <=? 2 ^ 31 then (34, None) else (0, Some wheel_gr)
|}.

(** ** Traces and independence *)

(** The length of the first buffer of a call entered in [wd]. *)
Definition first_buflen (c : category) (os : OS) (wd : world) : Z :=
  Z.max 1024
    (to_size (os_model os)
       (os_sysconf os (log wd) (db_sysconf_name (database_of c)))).

(** The calls a call has made into the C library while it is still at
    [again], most recent first, with the locals [buf] and [buflen] they lead
    to: the size query, then one [realloc] and one lookup that reported
    ERANGE per pass. *)
Inductive searching_trace (c : category) (os : OS) (name : string)
    (l0 : list event) : option ptr → Z → list event → Prop :=
| st_entry :
    searching_trace c os name l0 None
      (Z.max 1024
         (to_size (os_model os)
            (os_sysconf os l0 (db_sysconf_name (database_of c)))))
      [EvSysconf (db_sysconf_name (database_of c))
         (os_sysconf os l0 (db_sysconf_name (database_of c)))]
| st_retry buf b t q pp :
    searching_trace c os name l0 buf b t →
    searching_trace c os name l0 (Some q) (to_size (os_model os) (b * 2))
      (db_event (database_of c) name b (Z.pos (ERANGE os)) pp
         :: EvRealloc buf b (Some q) :: t).

(** The calls a call has made once it has returned [ret]: a [realloc] that
    gave null; or a [realloc], a lookup that reported something other than
    ERANGE, and the [free] of the block of that [realloc]. *)
Inductive returned_trace (c : category) (os : OS) (name : string)
    (l0 : list event) : Z → list event → Prop :=
| rt_no_memory buf b t :
    searching_trace c os name l0 buf b t →
    returned_trace c os name l0 (-1) (EvRealloc buf b None :: t)
| rt_found buf b t q e :
    searching_trace c os name l0 buf b t →
    returned_trace c os name l0 0
      (EvFree q :: db_event (database_of c) name b 0 (Some e)
         :: EvRealloc buf b (Some q) :: t)
| rt_failed buf b t q ec pp :
    searching_trace c os name l0 buf b t →
    ec ≠ Z.pos (ERANGE os) → ec ≠ 0 ∨ pp = None →
    returned_trace c os name l0 (-1)
      (EvFree q :: db_event (database_of c) name b ec pp
         :: EvRealloc buf b (Some q) :: t).

(** The calls made by a call entered with the log [l0], by its state. *)
Definition call_trace (c : category) (os : OS) (name : string)
    (l0 : list event) (s : state) (t : list event) : Prop :=
  match s with
  | Searching _ buf b => searching_trace c os name l0 buf b t
  | Returned _ ret _ => returned_trace c os name l0 ret t
  end.

(** The length after [n] passes, in closed form. *)
Definition buflen_doubled (c : category) (os : OS) (wd : world)
    (n : nat) (s : state) : Prop :=
  match s with
  | Searching _ _ b =>
    b = to_size (os_model os) (first_buflen c os wd * 2 ^ Z.of_nat n)
  | Returned _ _ _ => True
  end.

(** What a call that is at [again] after [n] passes owns: nothing before
    the first pass; afterwards the block the last [realloc] returned, of the
    length the last lookup was given, on top of the heap [h0] of the
    caller. *)
Definition owns_scratch (c : category) (os : OS) (name : string)
    (h0 : gmap positive Z) (n : nat) (s : state) : Prop :=
  match s with
  | Searching wd1 None _ => n = O ∧ heap wd1 = h0
  | Searching wd1 (Some q) b =>
    n ≠ O ∧ h0 !! q = None
    ∧ ∃ b_prev old pp l,
        heap wd1 = <[q := b_prev]> h0
        ∧ b = to_size (os_model os) (b_prev * 2)
        ∧ log wd1 = db_event (database_of c) name b_prev (Z.pos (ERANGE os)) pp
                      :: EvRealloc old b_prev (Some q) :: l
  | Returned _ _ _ => True
  end.

(** The calls that belong to the other database. *)
Definition other_database (c : category) (e : event) : bool :=
  match c, e with
  | User, EvGetgrnam _ _ _ _ => true
  | User, EvSysconf _SC_GETGR_R_SIZE_MAX _ => true
  | Group, EvGetpwnam _ _ _ _ => true
  | Group, EvSysconf _SC_GETPW_R_SIZE_MAX _ => true
  | _, _ => false
  end.

(** An environment whose answers do not depend on what happened before. *)
Definition history_free (os : OS) : Prop :=
  (∀ l l' n, os_sysconf os l n = os_sysconf os l' n)
  ∧ (∀ l l' m, os_realloc_grants os l m = os_realloc_grants os l' m)
  ∧ (∀ l l' name b, os_getpwnam_r os l name b = os_getpwnam_r os l' name b)
  ∧ (∀ l l' name b, os_getgrnam_r os l name b = os_getgrnam_r os l' name b).

(** Two states of two runs that are at the same point: the same length and
    a buffer in both or in neither; or the same result. *)
Definition same_point (s s' : state) : Prop :=
  match s, s' with
  | Searching _ buf b, Searching _ buf' b' =>
    b = b' ∧ (buf = None ↔ buf' = None)
  | Returned _ ret out, Returned _ ret' out' => ret = ret' ∧ out = out'
  | _, _ => False
  end.

(** Two states of two runs that differ in the value of the output cell at
    the call only. *)
Definition same_but_output (id id' : Z) (s s' : state) : Prop :=
  match s, s' with
  | Searching wd buf b, Searching wd' buf' b' =>
    wd = wd' ∧ buf = buf' ∧ b = b'
  | Returned wd ret out, Returned wd' ret' out' =>
    wd = wd' ∧ ret = ret'
    ∧ (ret = 0 ∧ out = out' ∨ ret = -1 ∧ out = id ∧ out' = id')
  | _, _ => False
  end.

(** A heap with a block of the caller. *)
Definition world1 : world := {| log := []; heap := {[7%positive := 100]} |}.

(** An environment in which [realloc(p, 0)] frees, with no bound on
    allocations and databases that report ERANGE whatever the length. *)
Definition os_always_erange : OS := {|
  os_model := LP64;
  ERANGE := 34%positive;
  os_realloc_zero_frees := true;
  os_sysconf := λ _ _, 1024;
  os_realloc_grants := λ _ _, true;
  os_getpwnam_r := λ _ _ _, (34, None);
  os_getgrnam_r := λ _ _ _, (34, None)
|}.

(** * Properties *)

(** ** Size arithmetic *)

Lemma size_bits_ge dm : 32 ≤ size_bits dm.
Proof. destruct dm; simpl; lia. Qed.

Lemma size_mod_pos dm : 0 < 2 ^ size_bits dm.
Proof. pose proof (size_bits_ge dm). apply Z.pow_pos_nonneg; lia. Qed.

Lemma size_mod_half dm : 2 ^ size_bits dm = 2 * 2 ^ (size_bits dm - 1).
Proof.
  pose proof (size_bits_ge dm).
  rewrite <- Z.pow_succ_r by lia. f_equal. lia.
Qed.

Lemma size_mod_big dm : 2 ^ 32 ≤ 2 ^ size_bits dm.
Proof. apply Z.pow_le_mono_r; [lia | apply size_bits_ge]. Qed.

Lemma to_size_range dm z : 0 ≤ to_size dm z < 2 ^ size_bits dm.
Proof. apply Z.mod_pos_bound, size_mod_pos. Qed.

Lemma to_size_small dm z : 0 ≤ z < 2 ^ size_bits dm → to_size dm z = z.
Proof. intros H. apply Z.mod_small, H. Qed.

(** Doubling in [size_t]: exact below half the range, wrapped from there. *)
Lemma to_size_double dm b :
  0 ≤ b < 2 ^ size_bits dm →
  to_size dm (b * 2) =
    if b <? 2 ^ (size_bits dm - 1) then 2 * b else 2 * b - 2 ^ size_bits dm.
Proof.
  intros Hb. pose proof (size_mod_half dm) as Hh. unfold to_size.
  destruct (Z.ltb_spec b (2 ^ (size_bits dm - 1))).
  - rewrite Z.mod_small; lia.
  - symmetry. apply (Z.mod_unique_pos _ _ 1); lia.
Qed.

(** ** The two functions are the algorithm [resolve] *)

Lemma goto_again_ext body1 body2 fuel s :
  (∀ wd buf b, body1 wd buf b = body2 wd buf b) →
  goto_again body1 fuel s = goto_again body2 fuel s.
Proof.
  intros Hb. revert s.
  induction fuel as [|fuel IH]; intros [wd buf b|wd ret out]; simpl; try done.
  rewrite Hb. apply IH.
Qed.

Lemma de_username_to_uid_entry_resolve os wd :
  de_username_to_uid_entry os wd = resolve_entry passwd_db os wd.
Proof.
  unfold de_username_to_uid_entry, resolve_entry, sysconf. simpl.
  destruct (Z.gtb_spec (to_size (os_model os)
    (os_sysconf os (log wd) _SC_GETPW_R_SIZE_MAX)) 1024); f_equal; lia.
Qed.

Lemma de_groupname_to_gid_entry_resolve os wd :
  de_groupname_to_gid_entry os wd = resolve_entry group_db os wd.
Proof.
  unfold de_groupname_to_gid_entry, resolve_entry, sysconf. simpl.
  destruct (Z.gtb_spec (to_size (os_model os)
    (os_sysconf os (log wd) _SC_GETGR_R_SIZE_MAX)) 1024); f_equal; lia.
Qed.

Lemma de_username_to_uid_again_resolve os name uid wd buf b :
  de_username_to_uid_again os name uid wd buf b
  = resolve_again passwd_db os name uid wd buf b.
Proof.
  unfold de_username_to_uid_again, resolve_again.
  destruct (realloc os buf b wd) as [[q|] wd1]; reflexivity.
Qed.

Lemma de_groupname_to_gid_again_resolve os name gid wd buf b :
  de_groupname_to_gid_again os name gid wd buf b
  = resolve_again group_db os name gid wd buf b.
Proof.
  unfold de_groupname_to_gid_again, resolve_again.
  destruct (realloc os buf b wd) as [[q|] wd1]; reflexivity.
Qed.

Lemma de_username_to_uid_resolve os name uid fuel wd :
  de_username_to_uid os name uid fuel wd = resolve passwd_db os name uid fuel wd.
Proof.
  unfold de_username_to_uid, resolve.
  rewrite de_username_to_uid_entry_resolve.
  apply goto_again_ext, de_username_to_uid_again_resolve.
Qed.

Lemma de_groupname_to_gid_resolve os name gid fuel wd :
  de_groupname_to_gid os name gid fuel wd = resolve group_db os name gid fuel wd.
Proof.
  unfold de_groupname_to_gid, resolve.
  rewrite de_groupname_to_gid_entry_resolve.
  apply goto_again_ext, de_groupname_to_gid_again_resolve.
Qed.

(** C8: each of the two functions is the one algorithm [resolve], taken at
    its database: the same size query, the same grow-and-retry body and the
    same results, up to the database asked and the field copied out. *)
Theorem user_and_group_instances_of_resolve :
  (∀ os name uid fuel wd,
      de_username_to_uid_entry os wd = resolve_entry passwd_db os wd
      ∧ (∀ buf b, de_username_to_uid_again os name uid wd buf b
                  = resolve_again passwd_db os name uid wd buf b)
      ∧ de_username_to_uid os name uid fuel wd
        = resolve passwd_db os name uid fuel wd)
  ∧ (∀ os name gid fuel wd,
      de_groupname_to_gid_entry os wd = resolve_entry group_db os wd
      ∧ (∀ buf b, de_groupname_to_gid_again os name gid wd buf b
                  = resolve_again group_db os name gid wd buf b)
      ∧ de_groupname_to_gid os name gid fuel wd
        = resolve group_db os name gid fuel wd).
Proof.
  split; intros os name id fuel wd.
  - split; [apply de_username_to_uid_entry_resolve|].
    split; [intros; apply de_username_to_uid_again_resolve|].
    apply de_username_to_uid_resolve.
  - split; [apply de_groupname_to_gid_entry_resolve|].
    split; [intros; apply de_groupname_to_gid_again_resolve|].
    apply de_groupname_to_gid_resolve.
Qed.

(** ** Runs *)

Lemma goto_again_state_after body fuel s :
  goto_again body fuel s = returned (state_after body fuel s).
Proof.
  revert s. induction fuel as [|fuel IH]; intros [wd buf b|wd ret out];
    simpl; try done.
Qed.

Lemma state_after_returned body n wd ret out :
  state_after body n (Returned wd ret out) = Returned wd ret out.
Proof. by destruct n. Qed.

Lemma state_after_S body n s :
  state_after body (S n) s =
    match state_after body n s with
    | Searching wd buf b => body wd buf b
    | Returned wd ret out => Returned wd ret out
    end.
Proof.
  revert s. induction n as [|n IH]; intros s.
  - simpl. by destruct s.
  - destruct s as [wd buf b|wd ret out]; [|done].
    change (state_after body (S (S n)) (Searching wd buf b))
      with (state_after body (S n) (body wd buf b)).
    rewrite IH. done.
Qed.

Lemma state_after_stable body n m s wd ret out :
  state_after body n s = Returned wd ret out → (n ≤ m)%nat →
  state_after body m s = Returned wd ret out.
Proof.
  intros Hn Hle. induction Hle as [|m Hle IH]; [done|].
  by rewrite state_after_S, IH.
Qed.

Lemma state_after_ext body1 body2 n s :
  (∀ wd buf b, body1 wd buf b = body2 wd buf b) →
  state_after body1 n s = state_after body2 n s.
Proof.
  intros Hb. revert s.
  induction n as [|n IH]; intros [wd buf b|wd ret out]; simpl; try done.
  rewrite Hb. apply IH.
Qed.

(** An invariant of the body holds in every state of a run. *)
Lemma state_after_invariant (I : state → Prop) body n s :
  (∀ wd buf b, I (Searching wd buf b) → I (body wd buf b)) →
  I s → I (state_after body n s).
Proof.
  intros Hstep. revert s.
  induction n as [|n IH]; intros [wd buf b|wd ret out] Hs; simpl; auto.
Qed.

Lemma de_name_to_id_entry_resolve c os wd :
  de_name_to_id_entry c os wd = resolve_entry (database_of c) os wd.
Proof.
  destruct c; [apply de_username_to_uid_entry_resolve
              |apply de_groupname_to_gid_entry_resolve].
Qed.

Lemma de_name_to_id_again_resolve c os name id wd buf b :
  de_name_to_id_again c os name id wd buf b
  = resolve_again (database_of c) os name id wd buf b.
Proof.
  destruct c; [apply de_username_to_uid_again_resolve
              |apply de_groupname_to_gid_again_resolve].
Qed.

Lemma call_state_resolve c os name id n wd :
  call_state c os name id n wd
  = state_after (resolve_again (database_of c) os name id) n
      (resolve_entry (database_of c) os wd).
Proof.
  unfold call_state. rewrite de_name_to_id_entry_resolve.
  apply state_after_ext, de_name_to_id_again_resolve.
Qed.

Lemma de_name_to_id_call_state c os name id fuel wd :
  de_name_to_id c os name id fuel wd = returned (call_state c os name id fuel wd).
Proof. destruct c; apply goto_again_state_after. Qed.

(** ** The allocator *)

Lemma realloc_log os buf b wd r wd1 :
  realloc os buf b wd = (r, wd1) → log wd1 = EvRealloc buf b r :: log wd.
Proof.
  unfold realloc. intros H.
  destruct buf as [p|];
    repeat match type of H with
           | context [if ?c then _ else _] => destruct c
           end; by inversion H.
Qed.

Lemma realloc_granted os buf b wd q wd1 :
  realloc os buf b wd = (Some q, wd1) → os_realloc_grants os (log wd) b = true.
Proof.
  unfold realloc. intros H.
  destruct buf as [p|];
    repeat match type of H with
           | context [if ?c then _ else _] => destruct c eqn:?
           end; by inversion H.
Qed.


Lemma realloc_null_fresh os b wd wd1 :
  realloc os None b wd = (None, wd1) →
  wd1 = log_event (EvRealloc None b None) wd.
Proof. unfold realloc. destruct (os_realloc_grants _ _ _); by inversion 1. Qed.

Lemma holds_release h0 q h : holds h0 (Some q) h → delete q h = h0.
Proof. intros [Hq [n ->]]. by apply delete_insert_id. Qed.

Lemma realloc_holds h0 os buf b wd q wd1 :
  holds h0 buf (heap wd) → realloc os buf b wd = (Some q, wd1) →
  holds h0 (Some q) (heap wd1).
Proof.
  intros Hh H. unfold realloc in H.
  destruct buf as [p|].
  - apply holds_release in Hh.
    destruct (_ && _); [done|].
    destruct (os_realloc_grants _ _ _); [|done].
    injection H as <- <-. simpl. rewrite Hh. split; [|eauto].
    apply not_elem_of_dom, is_fresh.
  - simpl in Hh. destruct (os_realloc_grants _ _ _); [|done].
    injection H as <- <-. simpl. rewrite Hh. split; [|eauto].
    apply not_elem_of_dom, is_fresh.
Qed.

(** A failed [realloc] leaves the heap as it was, so a block the call holds
    stays live; only a freeing [realloc(p, 0)] releases it. *)
Lemma realloc_null_heap os buf b wd wd1 :
  realloc os buf b wd = (None, wd1) →
  heap wd1 = heap wd
  ∨ ∃ p, buf = Some p ∧ b = 0 ∧ os_realloc_zero_frees os = true
         ∧ heap wd1 = delete p (heap wd).
Proof.
  unfold realloc. intros H. destruct buf as [p|].
  - destruct (Z.eqb_spec b 0) as [->|]; simpl in H.
    + destruct (os_realloc_zero_frees os) eqn:Hz.
      * inversion H; subst. right. by exists p.
      * destruct (os_realloc_grants _ _ _); inversion H; by left.
    + destruct (os_realloc_grants _ _ _); inversion H; by left.
  - destruct (os_realloc_grants _ _ _); inversion H; by left.
Qed.

(** ** One pass through the body *)

(** Case analysis on a pass whose allocation answer [Hr] and lookup answer
    [Hl] are known: the cases with other answers go away. *)
Ltac invert_pass Hp Hr Hl :=
  let Hr' := fresh "Hr'" in
  let Hl' := fresh "Hl'" in
  destruct Hp as [? Hr'|? ? ? Hr' Hl'|? ? ? Hr' Hl'|? ? Hr' Hl'
                 |? ? ? ? Hr' Hl' ? ?];
  rewrite Hr in Hr'; simplify_eq; rewrite Hl in Hl'; simplify_eq.

Section Pass.
Context (db : database) (os : OS) (name : string) (id : Z).
Context (wd : world) (buf : option ptr) (b : Z).

(** The body makes a pass. *)
Lemma resolve_again_pass :
  pass db os name id wd buf b (resolve_again db os name id wd buf b).
Proof.
  unfold resolve_again, getnam_r.
  destruct (realloc os buf b wd) as [[q|] wd1] eqn:Hr;
    [|by apply pass_no_memory].
  destruct (db_lookup db os (log wd1) name b) as [ec pp] eqn:Hl. simpl.
  destruct (Z.eqb_spec ec (Z.pos (ERANGE os))) as [->|Hne];
    [by eapply pass_retry|].
  destruct (Z.eqb_spec ec 0) as [->|Hnz]; [|by eapply pass_error].
  destruct pp as [e|]; [by eapply pass_found|by eapply pass_no_entry].
Qed.

(** A pass is determined by what the allocator and the database answer. *)
Lemma pass_no_memory_inv s wd1 :
  pass db os name id wd buf b s →
  realloc os buf b wd = (None, wd1) →
  s = Returned wd1 (-1) id.
Proof. intros Hp Hr. destruct Hp; congruence. Qed.

Lemma pass_retry_inv s q wd1 pp :
  pass db os name id wd buf b s →
  realloc os buf b wd = (Some q, wd1) →
  db_lookup db os (log wd1) name b = (Z.pos (ERANGE os), pp) →
  s = Searching (log_event (db_event db name b (Z.pos (ERANGE os)) pp) wd1)
        (Some q) (to_size (os_model os) (b * 2)).
Proof. intros Hp Hr Hl. invert_pass Hp Hr Hl; done. Qed.

Lemma pass_found_inv s q wd1 e :
  pass db os name id wd buf b s →
  realloc os buf b wd = (Some q, wd1) →
  db_lookup db os (log wd1) name b = (0, Some e) →
  s = Returned (free q (log_event (db_event db name b 0 (Some e)) wd1))
        0 (db_id db e).
Proof. intros Hp Hr Hl. invert_pass Hp Hr Hl; done. Qed.

Lemma pass_final_inv s q wd1 ec pp :
  pass db os name id wd buf b s →
  realloc os buf b wd = (Some q, wd1) →
  db_lookup db os (log wd1) name b = (ec, pp) →
  ec ≠ Z.pos (ERANGE os) →
  ∃ ret out,
    s = Returned (free q (log_event (db_event db name b ec pp) wd1)) ret out.
Proof. intros Hp Hr Hl Hne. invert_pass Hp Hr Hl; try done; eauto. Qed.


(** The body jumps back to [again] only after a granted allocation and a
    lookup that reported ERANGE. *)
Lemma pass_searching_inv wd' buf' b' :
  pass db os name id wd buf b (Searching wd' buf' b') →
  ∃ q wd1 pp,
    realloc os buf b wd = (Some q, wd1)
    ∧ db_lookup db os (log wd1) name b = (Z.pos (ERANGE os), pp)
    ∧ wd' = log_event (db_event db name b (Z.pos (ERANGE os)) pp) wd1
    ∧ buf' = Some q ∧ b' = to_size (os_model os) (b * 2).
Proof. inversion 1; subst. by eexists _, _, _. Qed.
End Pass.

Lemma de_name_to_id_again_pass c os name id wd buf b :
  pass (database_of c) os name id wd buf b
    (de_name_to_id_again c os name id wd buf b).
Proof. rewrite de_name_to_id_again_resolve. apply resolve_again_pass. Qed.

Lemma call_state_S c os name id n wd wd1 buf b :
  call_state c os name id n wd = Searching wd1 buf b →
  pass (database_of c) os name id wd1 buf b (call_state c os name id (S n) wd).
Proof.
  unfold call_state. intros Hn. rewrite state_after_S, Hn.
  apply de_name_to_id_again_pass.
Qed.

(** Once a pass has returned, the call has, whatever fuel is left. *)
Lemma call_state_returned c os name id n wd wd' ret out fuel :
  call_state c os name id n wd = Returned wd' ret out → (n ≤ fuel)%nat →
  de_name_to_id c os name id fuel wd
  = Some {| out_world := wd'; out_ret := ret; out_id := out |}.
Proof.
  intros Hn Hle. rewrite de_name_to_id_call_state. unfold call_state in *.
  by rewrite (state_after_stable _ _ _ _ _ _ _ Hn Hle).
Qed.

(** ** Scratch memory *)

Lemma pass_heap_inv h0 db os name id wd buf b s :
  holds h0 buf (heap wd) → pass db os name id wd buf b s → heap_inv h0 s.
Proof.
  intros Hh Hp.
  destruct Hp as [wd1 Hr|q wd1 pp Hr _|q wd1 e Hr _|q wd1 Hr _|q wd1 ec pp Hr _ _ _];
    simpl;
    try (left; eapply holds_release, realloc_holds; [exact Hh|exact Hr]).
  - pose proof (realloc_log _ _ _ _ _ _ Hr) as Hlog.
    destruct (realloc_null_heap _ _ _ _ _ Hr) as [Heq|(p & -> & _ & _ & Heq)].
    + destruct buf as [p|]; simpl in Hh.
      * right. split; [done|]. destruct Hh as [Hp [m Hm]].
        exists p, m, b, (log wd). by rewrite Heq.
      * left. congruence.
    + left. rewrite Heq. by apply holds_release.
  - eapply realloc_holds; [exact Hh|exact Hr].
Qed.

Lemma resolve_heap_inv db os name id n wd :
  heap_inv (heap wd)
    (state_after (resolve_again db os name id) n (resolve_entry db os wd)).
Proof.
  apply state_after_invariant.
  - intros wd1 buf b Hh. eapply pass_heap_inv; [exact Hh|].
    apply resolve_again_pass.
  - reflexivity.
Qed.

(** Every exit but one gives back all scratch memory: the heap at the return
    is the heap at the call, unless the call returns -1 straight after a
    failed growth of a block it still holds. *)
Lemma scratch_released_unless_growth_fails c os name id fuel wd o :
  de_name_to_id c os name id fuel wd = Some o →
  heap (out_world o) = heap wd
  ∨ out_ret o = -1 ∧ ∃ p m b l,
      log (out_world o) = EvRealloc (Some p) b None :: l
      ∧ heap wd !! p = None ∧ heap (out_world o) = <[p := m]> (heap wd).
Proof.
  rewrite de_name_to_id_call_state, call_state_resolve. intros Hret.
  pose proof (resolve_heap_inv (database_of c) os name id fuel wd) as Hinv.
  destruct (state_after _ _ _) as [?|wd' ret out]; [done|].
  simpl in Hret. injection Hret as <-. exact Hinv.
Qed.

Lemma scratch_released_unless_growth_fails_witness :
  ∃ o, de_groupname_to_gid os_linux "wheel" 77 3 world0 = Some o
       ∧ (heap (out_world o) = heap world0
          ∨ out_ret o = -1 ∧ ∃ p m b l,
              log (out_world o) = EvRealloc (Some p) b None :: l
              ∧ heap world0 !! p = None
              ∧ heap (out_world o) = <[p := m]> (heap world0)).
Proof.
  eexists. split; [vm_compute; reflexivity|].
  apply (scratch_released_unless_growth_fails Group os_linux "wheel" 77 3 world0).
  vm_compute; reflexivity.
Defined.

(** C1, at the input where it fails: the first allocation succeeds, the
    lookup reports ERANGE, and the growth to 2048 bytes is refused.  Both
    functions then return -1 while the 1024-byte block of the first
    allocation is still live: it is not released before the return. *)
Theorem failed_growth_leaks_scratch_buffer :
  (∃ o, de_username_to_uid os_low_memory "root" 77 2 world0 = Some o
        ∧ out_ret o = -1
        ∧ log (out_world o) =
            [EvRealloc (Some 1%positive) 2048 None;
             EvGetpwnam "root" 1024 34 None;
             EvRealloc None 1024 (Some 1%positive);
             EvSysconf _SC_GETPW_R_SIZE_MAX 1024]
        ∧ heap (out_world o) = {[1%positive := 1024]}
        ∧ heap (out_world o) ≠ heap world0)
  ∧ (∃ o, de_groupname_to_gid os_low_memory "wheel" 77 2 world0 = Some o
        ∧ out_ret o = -1
        ∧ log (out_world o) =
            [EvRealloc (Some 1%positive) 2048 None;
             EvGetgrnam "wheel" 1024 34 None;
             EvRealloc None 1024 (Some 1%positive);
             EvSysconf _SC_GETGR_R_SIZE_MAX 1024]
        ∧ heap (out_world o) = {[1%positive := 1024]}
        ∧ heap (out_world o) ≠ heap world0).
Proof.
  split; eexists; (split; [vm_compute; reflexivity|]);
    cbn [out_ret out_world log heap]; repeat split;
    intros H; vm_compute in H; discriminate H.
Qed.

(** ** Results *)

Lemma pass_verdict db os name id wd buf b s :
  pass db os name id wd buf b s → verdict db os name id s.
Proof.
  intros [wd1 Hr|q wd1 pp Hr Hl|q wd1 e Hr Hl|q wd1 Hr Hl|q wd1 ec pp Hr Hl H1 H2];
    simpl; [| |left|right|right]; try done.
  - right. do 2 (split; [done|]). do 2 right.
    rewrite (realloc_log _ _ _ _ _ _ Hr). by eexists _, _, _.
  - split; [done|]. exists e. split; [|done]. by eexists _, _, _.
  - do 2 (split; [done|]). left. by eexists _, _, _.
  - do 2 (split; [done|]). right; left. exists ec, pp.
    split; [|done]. by eexists _, _, _.
Qed.

Lemma call_verdict c os name id n wd :
  verdict (database_of c) os name id (call_state c os name id n wd).
Proof.
  rewrite call_state_resolve. apply state_after_invariant.
  - intros wd1 buf b _. eapply pass_verdict, resolve_again_pass.
  - exact I.
Qed.

Lemma de_name_to_id_verdict c os name id fuel wd o :
  de_name_to_id c os name id fuel wd = Some o →
  verdict (database_of c) os name id
    (Returned (out_world o) (out_ret o) (out_id o)).
Proof.
  rewrite de_name_to_id_call_state. intros Hret.
  pose proof (call_verdict c os name id fuel wd) as Hv.
  destruct (call_state _ _ _ _ _ _) as [?|wd' ret out]; [done|].
  simpl in Hret. by injection Hret as <-.
Qed.






(** The three causes of failure and the success, each on a run. *)
Example failure_no_entry :
  option_map out_ret (de_username_to_uid os_linux "nobody" 77 1 world0)
  = Some (-1).
Proof. reflexivity. Qed.

Example failure_lookup_error :
  option_map out_ret (de_groupname_to_gid os_linux "broken" 77 1 world0)
  = Some (-1).
Proof. reflexivity. Qed.

Example failure_no_memory :
  option_map out_ret (de_username_to_uid os_low_memory "root" 77 2 world0)
  = Some (-1).
Proof. reflexivity. Qed.

Example success_after_two_retries :
  option_map (λ o, (out_ret o, out_id o))
    (de_groupname_to_gid os_linux "wheel" 77 3 world0)
  = Some (0, 10).
Proof. reflexivity. Qed.

(** C4: whenever a lookup made by a call succeeds with a matching entry, the
    call returns 0 and the output cell holds exactly the identifier of that
    entry: [pw_uid] for [de_username_to_uid], [gr_gid] for
    [de_groupname_to_gid].  This holds for the first lookup of a call, which
    is made with the first buffer as soon as that buffer is granted, and for
    the lookup of every later pass. *)
Theorem found_entry_id_is_written c os name id wd :
  (∀ q wd2 e fuel,
     realloc os None (first_buflen c os wd)
       (log_event
          (EvSysconf (db_sysconf_name (database_of c))
             (os_sysconf os (log wd) (db_sysconf_name (database_of c)))) wd)
     = (Some q, wd2) →
     db_lookup (database_of c) os (log wd2) name (first_buflen c os wd)
     = (0, Some e) →
     (0 < fuel)%nat →
     de_name_to_id c os name id fuel wd
     = Some {| out_world :=
                 free q (log_event
                           (db_event (database_of c) name
                              (first_buflen c os wd) 0 (Some e)) wd2);
               out_ret := 0;
               out_id := db_id (database_of c) e |})
  ∧ (∀ n wd1 buf b q wd2 e fuel,
       call_state c os name id n wd = Searching wd1 buf b →
       realloc os buf b wd1 = (Some q, wd2) →
       db_lookup (database_of c) os (log wd2) name b = (0, Some e) →
       (n < fuel)%nat →
       de_name_to_id c os name id fuel wd
       = Some {| out_world :=
                   free q (log_event
                             (db_event (database_of c) name b 0 (Some e)) wd2);
                 out_ret := 0;
                 out_id := db_id (database_of c) e |}).
Proof.
  assert (Hlater : ∀ n wd1 buf b q wd2 e fuel,
            call_state c os name id n wd = Searching wd1 buf b →
            realloc os buf b wd1 = (Some q, wd2) →
            db_lookup (database_of c) os (log wd2) name b = (0, Some e) →
            (n < fuel)%nat →
            de_name_to_id c os name id fuel wd
            = Some {| out_world :=
                        free q (log_event
                                  (db_event (database_of c) name b 0 (Some e))
                                  wd2);
                      out_ret := 0;
                      out_id := db_id (database_of c) e |}).
  { intros n wd1 buf b q wd2 e fuel Hn Hr Hl Hfuel.
    apply (call_state_returned c os name id (S n)); [|lia].
    eapply pass_found_inv; [by apply call_state_S|exact Hr|exact Hl]. }
  split; [|exact Hlater].
  intros q wd2 e fuel Hr Hl Hfuel.
  eapply (Hlater O _ None _ q wd2 e fuel); [|exact Hr|exact Hl|exact Hfuel].
  unfold call_state. simpl. by rewrite de_name_to_id_entry_resolve.
Qed.

Lemma found_entry_id_is_written_witness :
  (∃ wd', de_username_to_uid os_linux "root" 77 3 world0
          = Some {| out_world := wd'; out_ret := 0; out_id := pw_uid root_pw |})
  ∧ (∃ wd', de_groupname_to_gid os_linux "wheel" 77 3 world0
            = Some {| out_world := wd'; out_ret := 0;
                      out_id := gr_gid wheel_gr |})
  ∧ (∃ wd', de_groupname_to_gid os_small_hint "wheel" 77 1 world0
            = Some {| out_world := wd'; out_ret := 0;
                      out_id := gr_gid wheel_gr |}).
Proof.
  split; [|split]; eexists.
  - eapply (proj2 (found_entry_id_is_written User os_linux "root" 77 world0)
              2%nat _ _ 4096 1%positive _ root_pw);
      [vm_compute; reflexivity|vm_compute; reflexivity|reflexivity|lia].
  - eapply (proj2 (found_entry_id_is_written Group os_linux "wheel" 77 world0)
              2%nat _ _ 4096 1%positive _ wheel_gr);
      [vm_compute; reflexivity|vm_compute; reflexivity|reflexivity|lia].
  - eapply (proj1 (found_entry_id_is_written Group os_small_hint "wheel" 77
                     world0) 1%positive _ wheel_gr);
      [vm_compute; reflexivity|reflexivity|lia].
Defined.

(** C9: a call that returns -1 leaves the output cell as it found it; the
    cell is written on the success path only. *)
Theorem failure_leaves_output_unchanged c os name id fuel wd o :
  de_name_to_id c os name id fuel wd = Some o →
  out_ret o = -1 → out_id o = id.
Proof.
  intros Hret Hm. apply de_name_to_id_verdict in Hret.
  destruct Hret as [[H0 _]|(_ & Hid & _)]; [lia|done].
Qed.

Lemma failure_leaves_output_unchanged_witness :
  ∃ o, de_groupname_to_gid os_linux "broken" 77 1 world0 = Some o
       ∧ out_id o = 77.
Proof.
  eexists. split; [vm_compute; reflexivity|].
  apply (failure_leaves_output_unchanged Group os_linux "broken" 77 1 world0);
    vm_compute; reflexivity.
Defined.

(** ** The retry loop *)

Lemma entry_state c os wd :
  de_name_to_id_entry c os wd
  = Searching
      (log_event
         (EvSysconf (db_sysconf_name (database_of c))
            (os_sysconf os (log wd) (db_sysconf_name (database_of c)))) wd)
      None
      (Z.max 1024
         (to_size (os_model os)
            (os_sysconf os (log wd) (db_sysconf_name (database_of c))))).
Proof. by rewrite de_name_to_id_entry_resolve. Qed.

Lemma initial_buflen_range dm sz :
  1024 ≤ Z.max 1024 (to_size dm sz) < 2 ^ size_bits dm.
Proof.
  pose proof (to_size_range dm sz). pose proof (size_mod_big dm). lia.
Qed.

Lemma call_buflen_in_range c os name id n wd :
  buflen_in_range (os_model os) (call_state c os name id n wd).
Proof.
  rewrite call_state_resolve. apply state_after_invariant.
  - intros wd1 buf b _.
    destruct (resolve_again_pass (database_of c) os name id wd1 buf b);
      simpl; try done. apply to_size_range.
  - simpl. pose proof (initial_buflen_range (os_model os)
      (os_sysconf os (log wd) (db_sysconf_name (database_of c)))). lia.
Qed.

(** ** Growth of the buffer *)

Lemma call_buflen_positive c os name id n wd :
  allocator_bounded os →
  buflen_positive (os_model os) (call_state c os name id n wd).
Proof.
  intros Hbound. rewrite call_state_resolve. apply state_after_invariant.
  - intros wd1 buf b Hb. simpl in Hb.
    destruct (resolve_again_pass (database_of c) os name id wd1 buf b)
      as [| q wd2 pp Hr _ | | |]; simpl; try done.
    apply realloc_granted, Hbound in Hr. unfold PTRDIFF_MAX in Hr.
    rewrite to_size_double by lia.
    pose proof (size_mod_half (os_model os)).
    destruct (Z.ltb_spec b (2 ^ (size_bits (os_model os) - 1))); lia.
  - simpl. pose proof (initial_buflen_range (os_model os)
      (os_sysconf os (log wd) (db_sysconf_name (database_of c)))). lia.
Qed.

(** C2 as stated fails: on a 32-bit platform, in the pass with a buffer of
    2^31 bytes, the allocation is granted and the lookup reports ERANGE, and
    the length for the retry is 0: not twice 2^31, and not larger. *)
Lemma erange_retry_wraps_not_doubled :
  ∃ wd1 buf q wd2,
    call_state User os_oversized_record "root" 0 21 world0
    = Searching wd1 buf (2 ^ 31)
    ∧ realloc os_oversized_record buf (2 ^ 31) wd1 = (Some q, wd2)
    ∧ os_getpwnam_r os_oversized_record (log wd2) "root" (2 ^ 31)
      = (Z.pos (ERANGE os_oversized_record), None)
    ∧ state_buflen (call_state User os_oversized_record "root" 0 22 world0)
      = Some 0
    ∧ 0 ≠ 2 * 2 ^ 31 ∧ ¬ 2 ^ 31 < 0.
Proof.
  eexists _, _, _, _.
  split; [vm_compute; reflexivity|]. split; [vm_compute; reflexivity|].
  split; [vm_compute; reflexivity|]. split; [vm_compute; reflexivity|].
  split; lia.
Qed.

(** C2, amended: when a lookup of a call reports ERANGE, the call does not
    return: it is back at [again] with the same buffer and the length times
    two in [size_t], which is exactly [2 * b] while [b < 2 ^ (size_bits - 1)]
    and larger than [b] while moreover [0 < b]; both hold at every retry
    when the allocator hands out no block above PTRDIFF_MAX.  If the growth
    to the new length fails the call returns -1; if it succeeds the lookup
    is made again for the same name with the new length, and the call goes
    round once more if that lookup reports ERANGE too and returns
    otherwise. *)
Theorem erange_is_retried_with_doubled_buffer
    c os name id n wd wd1 buf b q wd2 pp :
  call_state c os name id n wd = Searching wd1 buf b →
  realloc os buf b wd1 = (Some q, wd2) →
  db_lookup (database_of c) os (log wd2) name b = (Z.pos (ERANGE os), pp) →
  let db := database_of c in
  let b' := to_size (os_model os) (b * 2) in
  let wd3 := log_event (db_event db name b (Z.pos (ERANGE os)) pp) wd2 in
  call_state c os name id (S n) wd = Searching wd3 (Some q) b'
  ∧ de_name_to_id c os name id (S n) wd = None
  ∧ (b < 2 ^ (size_bits (os_model os) - 1) → b' = 2 * b)
  ∧ (0 < b < 2 ^ (size_bits (os_model os) - 1) → b < b')
  ∧ (allocator_bounded os → b' = 2 * b ∧ b < b')
  ∧ (∀ wd4,
       realloc os (Some q) b' wd3 = (None, wd4) →
       call_state c os name id (S (S n)) wd = Returned wd4 (-1) id
       ∧ ∀ fuel, (S n < fuel)%nat →
           de_name_to_id c os name id fuel wd
           = Some {| out_world := wd4; out_ret := -1; out_id := id |})
  ∧ (∀ q' wd4 ec' pp',
       realloc os (Some q) b' wd3 = (Some q', wd4) →
       db_lookup db os (log wd4) name b' = (ec', pp') →
       let wd5 := log_event (db_event db name b' ec' pp') wd4 in
       (ec' = Z.pos (ERANGE os) →
          call_state c os name id (S (S n)) wd
          = Searching wd5 (Some q') (to_size (os_model os) (b' * 2))
          ∧ de_name_to_id c os name id (S (S n)) wd = None)
       ∧ (ec' ≠ Z.pos (ERANGE os) →
          ∃ ret out,
            call_state c os name id (S (S n)) wd
            = Returned (free q' wd5) ret out
            ∧ ∀ fuel, (S n < fuel)%nat →
                de_name_to_id c os name id fuel wd
                = Some {| out_world := free q' wd5;
                          out_ret := ret; out_id := out |})).
Proof.
  intros Hn Hr Hl db b' wd3.
  assert (HS : call_state c os name id (S n) wd = Searching wd3 (Some q) b').
  { eapply pass_retry_inv; [by apply call_state_S|exact Hr|exact Hl]. }
  pose proof (call_state_S _ _ _ _ _ _ _ _ _ HS) as HSS.
  pose proof (call_buflen_in_range c os name id n wd) as Hrange.
  rewrite Hn in Hrange. simpl in Hrange.
  pose proof (size_mod_half (os_model os)) as Hhalf.
  assert (Hexact : b < 2 ^ (size_bits (os_model os) - 1) → b' = 2 * b).
  { intros Hb. subst b'. rewrite to_size_double by done.
    destruct (Z.ltb_spec b (2 ^ (size_bits (os_model os) - 1))); lia. }
  split; [exact HS|]. split; [by rewrite de_name_to_id_call_state, HS|].
  split; [exact Hexact|]. split; [intros [? Hb]; rewrite Hexact; lia|].
  split; [|split].
  - intros Hbound.
    pose proof (call_buflen_positive c os name id n wd Hbound) as Hpos.
    rewrite Hn in Hpos. simpl in Hpos.
    pose proof (realloc_granted _ _ _ _ _ _ Hr) as Hg.
    apply Hbound in Hg. unfold PTRDIFF_MAX in Hg.
    rewrite Hexact; lia.
  - intros wd4 Hr4.
    assert (Hret : call_state c os name id (S (S n)) wd = Returned wd4 (-1) id)
      by (by eapply pass_no_memory_inv).
    split; [exact Hret|]. intros fuel Hfuel.
    apply (call_state_returned c os name id (S (S n))); [exact Hret|lia].
  - intros q' wd4 ec' pp' Hr4 Hl4 wd5. split.
    + intros ->.
      assert (Hgo : call_state c os name id (S (S n)) wd
                    = Searching wd5 (Some q') (to_size (os_model os) (b' * 2)))
        by (by eapply pass_retry_inv).
      split; [exact Hgo|]. by rewrite de_name_to_id_call_state, Hgo.
    + intros Hne.
      destruct (pass_final_inv _ _ _ _ _ _ _ _ _ _ _ _ HSS Hr4 Hl4 Hne)
        as (ret & out & Hret).
      exists ret, out. split; [exact Hret|]. intros fuel Hfuel.
      apply (call_state_returned c os name id (S (S n))); [exact Hret|lia].
Qed.

Lemma erange_is_retried_with_doubled_buffer_witness :
  ∃ wd', ∀ fuel, (2 < fuel)%nat →
    de_groupname_to_gid os_linux "wheel" 77 fuel world0
    = Some {| out_world := wd'; out_ret := 0; out_id := gr_gid wheel_gr |}.
Proof.
  edestruct (erange_is_retried_with_doubled_buffer
               Group os_linux "wheel" 77 1 world0)
    as (_ & _ & _ & _ & _ & _ & Hnext);
    [vm_compute; reflexivity|vm_compute; reflexivity|vm_compute; reflexivity|].
  edestruct Hnext as [_ Hfinal];
    [vm_compute; reflexivity|vm_compute; reflexivity|].
  destruct Hfinal as (ret & out & _ & Hcall); [discriminate|].
  pose proof (Hcall 3%nat (Nat.lt_succ_diag_r 2)) as H3.
  vm_compute in H3. simplify_eq.
  eexists. exact Hcall.
Defined.

(** C5 as stated fails: the retry that follows the pass with a buffer of
    2^31 bytes on a 32-bit platform has length 2^32 mod 2^32 = 0. *)
Lemma retry_wraps_to_zero :
  ∃ b b',
    state_buflen (call_state User os_oversized_record "root" 0 21 world0)
    = Some b
    ∧ state_buflen (call_state User os_oversized_record "root" 0 22 world0)
      = Some b'
    ∧ b = 2 ^ 31 ∧ b' = 0 ∧ ¬ b < b'.
Proof.
  exists (2 ^ 31), 0.
  split; [vm_compute; reflexivity|]. split; [vm_compute; reflexivity|].
  repeat split; lia.
Qed.

(** C5, amended: a retry takes the length [b] to [2 * b] modulo
    [2 ^ size_bits], which is greater than [b] exactly when
    [0 < b < 2 ^ (size_bits - 1)]; every retry of every run is of that kind
    when the allocator hands out no block above PTRDIFF_MAX. *)
Theorem retry_grows_below_half_range c os name id n wd wd1 buf b wd2 buf' b' :
  call_state c os name id n wd = Searching wd1 buf b →
  call_state c os name id (S n) wd = Searching wd2 buf' b' →
  b' = to_size (os_model os) (b * 2)
  ∧ (b < b' ↔ 0 < b < 2 ^ (size_bits (os_model os) - 1))
  ∧ (allocator_bounded os → b < b').
Proof.
  intros Hn HS.
  pose proof (call_state_S _ _ _ _ _ _ _ _ _ Hn) as Hp. rewrite HS in Hp.
  apply pass_searching_inv in Hp as (q & wd' & pp & Hr & _ & _ & _ & ->).
  pose proof (call_buflen_in_range c os name id n wd) as Hrange.
  rewrite Hn in Hrange. simpl in Hrange.
  pose proof (size_mod_half (os_model os)) as Hhalf.
  rewrite to_size_double by done.
  split; [done|]. split.
  - destruct (Z.ltb_spec b (2 ^ (size_bits (os_model os) - 1))); lia.
  - intros Hbound.
    pose proof (call_buflen_positive c os name id n wd Hbound) as Hpos.
    rewrite Hn in Hpos. simpl in Hpos.
    apply realloc_granted, Hbound in Hr. unfold PTRDIFF_MAX in Hr.
    destruct (Z.ltb_spec b (2 ^ (size_bits (os_model os) - 1))); lia.
Qed.

Lemma os_linux_allocator_bounded : allocator_bounded os_linux.
Proof. intros l m H. simpl in H. by apply Z.leb_le in H. Defined.

Lemma retry_grows_below_half_range_witness :
  2048 = to_size LP64 (1024 * 2)
  ∧ (1024 < 2048 ↔ 0 < 1024 < 2 ^ (size_bits LP64 - 1))
  ∧ (allocator_bounded os_linux → 1024 < 2048).
Proof.
  eapply (retry_grows_below_half_range User os_linux "root" 77 0 world0);
    vm_compute; reflexivity.
Defined.

(** ** The size hint *)

Lemma db_event_not_sysconf c name b ec pp :
  is_sysconf (db_event (database_of c) name b ec pp) = false.
Proof. by destruct c. Qed.

(** A pass starts with its [realloc] and makes no [sysconf] call. *)
Lemma pass_log c os name id wd buf b s :
  pass (database_of c) os name id wd buf b s →
  ∃ l r, log (state_world s) = l ++ EvRealloc buf b r :: log wd
         ∧ Forall (λ e, is_sysconf e = false) l.
Proof.
  intros [wd1 Hr|q wd1 pp Hr _|q wd1 e Hr _|q wd1 Hr _|q wd1 ec pp Hr _ _ _];
    simpl; rewrite (realloc_log _ _ _ _ _ _ Hr).
  - by exists [], None.
  - eexists [_], _. split; [done|].
    repeat constructor. apply db_event_not_sysconf.
  - eexists [_; _], _. split; [done|].
    repeat constructor. apply db_event_not_sysconf.
  - eexists [_; _], _. split; [done|].
    repeat constructor. apply db_event_not_sysconf.
  - eexists [_; _], _. split; [done|].
    repeat constructor. apply db_event_not_sysconf.
Qed.

(** C7 as stated fails: with a size hint of 512 the first buffer has 1024
    bytes, not the 512 the OS suggests. *)
Lemma initial_size_is_not_the_hint :
  os_sysconf os_small_hint (log world0) _SC_GETPW_R_SIZE_MAX = 512
  ∧ de_username_to_uid_entry os_small_hint world0
    = Searching {| log := [EvSysconf _SC_GETPW_R_SIZE_MAX 512]; heap := ∅ |}
        None 1024
  ∧ option_map (λ o, log (out_world o))
      (de_username_to_uid os_small_hint "root" 77 1 world0)
    = Some [EvFree 1%positive;
            EvGetpwnam "root" 1024 0 (Some root_pw);
            EvRealloc None 1024 (Some 1%positive);
            EvSysconf _SC_GETPW_R_SIZE_MAX 512]
  ∧ 1024 ≠ 512.
Proof. repeat split; try reflexivity. lia. Qed.

(** C7, amended: the first buffer has the larger of 1024 and the size hint
    converted to [size_t].  The hint is asked for on entry to each call, with
    the answer the OS gives at that moment; the first [realloc] of the call
    follows it with that length, and the call asks no second time. *)
Theorem size_hint_is_queried_on_entry c os name id wd :
  let sc := db_sysconf_name (database_of c) in
  let sz := os_sysconf os (log wd) sc in
  let b0 := Z.max 1024 (to_size (os_model os) sz) in
  de_name_to_id_entry c os wd
  = Searching (log_event (EvSysconf sc sz) wd) None b0
  ∧ ∀ n, ∃ l r,
      log (state_world (call_state c os name id (S n) wd))
      = l ++ [EvRealloc None b0 r; EvSysconf sc sz] ++ log wd
      ∧ Forall (λ e, is_sysconf e = false) l.
Proof.
  intros sc sz b0. split; [apply entry_state|].
  induction n as [|n (l & r & Hlog & Hl)].
  - destruct (pass_log c os name id _ _ _ _
                (call_state_S c os name id 0 wd _ _ _ (entry_state c os wd)))
      as (l & r & Hlog & Hl).
    by exists l, r.
  - destruct (call_state c os name id (S n) wd) as [wd1 buf b|wd1 ret out] eqn:HS.
    + destruct (pass_log c os name id _ _ _ _
                  (call_state_S c os name id (S n) wd _ _ _ HS))
        as (l' & r' & Hlog' & Hl').
      exists (l' ++ EvRealloc buf b r' :: l), r. split.
      * rewrite Hlog'. simpl in Hlog. rewrite Hlog.
        by rewrite <- app_assoc.
      * apply Forall_app. split; [done|]. by constructor.
    + exists l, r. split; [|done].
      unfold call_state in *.
      by rewrite (state_after_stable _ (S n) (S (S n)) _ _ _ _ HS) by lia.
Qed.

(** The hint is not kept from one call to the next: in [os_changing_hint]
    the first call starts with 2048 bytes and the second with 8192. *)
Example size_hint_not_cached :
  ∃ o1 o2,
    de_username_to_uid os_changing_hint "root" 77 1 world0 = Some o1
    ∧ de_username_to_uid os_changing_hint "root" 77 1 (out_world o1) = Some o2
    ∧ log (out_world o2)
      = [EvFree 1%positive;
         EvGetpwnam "root" 8192 0 (Some root_pw);
         EvRealloc None 8192 (Some 1%positive);
         EvSysconf _SC_GETPW_R_SIZE_MAX 8192;
         EvFree 1%positive;
         EvGetpwnam "root" 2048 0 (Some root_pw);
         EvRealloc None 2048 (Some 1%positive);
         EvSysconf _SC_GETPW_R_SIZE_MAX 2048].
Proof. do 2 eexists. repeat split; vm_compute; reflexivity. Qed.




(** ** Termination *)

(** From a length [b] whose doubling reaches [N] within [k] steps, and
    before it leaves the [size_t] range, the loop is over after [k + 1]
    passes at most, if no pass with a length of [N] or more jumps back. *)
Lemma loop_returns_within db os name id N :
  N ≤ 2 ^ (size_bits (os_model os) - 1) →
  (∀ wd buf b wd' buf' b',
     N ≤ b → ¬ pass db os name id wd buf b (Searching wd' buf' b')) →
  ∀ (k : nat) wd buf b,
    0 < b < 2 ^ size_bits (os_model os) →
    N ≤ b * 2 ^ Z.of_nat k →
    ∃ wd' ret out,
      state_after (resolve_again db os name id) (S k) (Searching wd buf b)
      = Returned wd' ret out.
Proof.
  intros HN Hstop.
  pose proof (size_mod_half (os_model os)) as Hhalf.
  induction k as [|k IH]; intros wd buf b Hb Hreach.
  - simpl in *.
    pose proof (resolve_again_pass db os name id wd buf b) as Hp.
    destruct (resolve_again db os name id wd buf b) as [wd' buf' b'|wd' ret out];
      [|by eexists _, _, _].
    exfalso. apply (Hstop wd buf b wd' buf' b'); [lia|done].
  - change (state_after (resolve_again db os name id) (S (S k))
              (Searching wd buf b))
      with (state_after (resolve_again db os name id) (S k)
              (resolve_again db os name id wd buf b)).
    pose proof (resolve_again_pass db os name id wd buf b) as Hp.
    destruct (resolve_again db os name id wd buf b) as [wd' buf' b'|wd' ret out];
      [|rewrite state_after_returned; by eexists _, _, _].
    assert (Hlt : b < N).
    { destruct (Z.lt_ge_cases b N) as [|Hge]; [done|]. exfalso.
      by apply (Hstop wd buf b wd' buf' b'). }
    apply pass_searching_inv in Hp as (_ & _ & _ & _ & _ & _ & _ & ->).
    rewrite to_size_double by lia.
    destruct (Z.ltb_spec b (2 ^ (size_bits (os_model os) - 1))); [|lia].
    apply IH; [lia|].
    rewrite Nat2Z.inj_succ, Z.pow_succ_r in Hreach by lia. lia.
Qed.

(** The first length reaches half the [size_t] range within
    [size_bits - 11] doublings. *)
Lemma call_returns_within c os name id wd N :
  N ≤ 2 ^ (size_bits (os_model os) - 1) →
  (∀ wd buf b wd' buf' b',
     N ≤ b →
     ¬ pass (database_of c) os name id wd buf b (Searching wd' buf' b')) →
  ∃ o, ∀ fuel, (Z.to_nat (size_bits (os_model os)) ≤ fuel)%nat →
         de_name_to_id c os name id fuel wd = Some o.
Proof.
  intros HN Hstop.
  pose proof (size_bits_ge (os_model os)) as Hbits.
  pose proof (size_mod_half (os_model os)) as Hhalf.
  set (sz := os_sysconf os (log wd) (db_sysconf_name (database_of c))).
  pose proof (initial_buflen_range (os_model os) sz) as Hb0.
  set (k := Z.to_nat (size_bits (os_model os) - 11)).
  destruct (loop_returns_within (database_of c) os name id N HN Hstop k
              (log_event (EvSysconf (db_sysconf_name (database_of c)) sz) wd)
              None (Z.max 1024 (to_size (os_model os) sz)))
    as (wd' & ret & out & Hret).
  - lia.
  - assert (Hpow : 2 ^ (size_bits (os_model os) - 1)
                   = 1024 * 2 ^ Z.of_nat k).
    { unfold k. rewrite Z2Nat.id by lia.
      change 1024 with (2 ^ 10). rewrite <- Z.pow_add_r by lia.
      f_equal. lia. }
    assert (0 < 2 ^ Z.of_nat k) by (apply Z.pow_pos_nonneg; lia). nia.
  - exists {| out_world := wd'; out_ret := ret; out_id := out |}.
    intros fuel Hfuel.
    rewrite de_name_to_id_call_state, call_state_resolve.
    erewrite (state_after_stable _ (S k) fuel); [reflexivity| |lia].
    exact Hret.
Qed.

(** With an allocator that hands out no block above PTRDIFF_MAX every call
    returns, whatever the database answers: the growth is refused at the
    latest when the length reaches half the [size_t] range. *)
Lemma call_returns_if_allocator_bounded c os name id wd :
  allocator_bounded os →
  ∃ o, ∀ fuel, (Z.to_nat (size_bits (os_model os)) ≤ fuel)%nat →
         de_name_to_id c os name id fuel wd = Some o.
Proof.
  intros Hbound.
  apply (call_returns_within c os name id wd
           (2 ^ (size_bits (os_model os) - 1))); [lia|].
  intros wd1 buf b wd' buf' b' Hb Hp.
  apply pass_searching_inv in Hp as (q & wd2 & pp & Hr & _).
  apply realloc_granted, Hbound in Hr. unfold PTRDIFF_MAX in Hr. lia.
Qed.

Lemma call_returns_if_allocator_bounded_witness :
  ∃ o, ∀ fuel, (Z.to_nat (size_bits LP64) ≤ fuel)%nat →
         de_username_to_uid os_linux "nobody" 77 fuel world0 = Some o.
Proof.
  exact (call_returns_if_allocator_bounded User os_linux "nobody" 77 world0
           os_linux_allocator_bounded).
Defined.

(** C6, amended: the loop goes round only after a lookup that reported
    ERANGE; and if from some length [N ≤ 2 ^ (size_bits - 1)] on the lookup
    reports anything but ERANGE, the call returns, after at most
    [size_bits] passes. *)
Theorem call_returns_if_threshold_below_half_range c os name id wd N :
  N ≤ 2 ^ (size_bits (os_model os) - 1) →
  (∀ l n, N ≤ n →
     (db_lookup (database_of c) os l name n).1 ≠ Z.pos (ERANGE os)) →
  (∃ o, ∀ fuel, (Z.to_nat (size_bits (os_model os)) ≤ fuel)%nat →
          de_name_to_id c os name id fuel wd = Some o)
  ∧ (∀ n wd1 buf b wd2 buf' b',
       call_state c os name id n wd = Searching wd1 buf b →
       call_state c os name id (S n) wd = Searching wd2 buf' b' →
       ∃ q wd' pp,
         realloc os buf b wd1 = (Some q, wd')
         ∧ db_lookup (database_of c) os (log wd') name b
           = (Z.pos (ERANGE os), pp)).
Proof.
  intros HN Hlookup. split.
  - apply (call_returns_within c os name id wd N HN).
    intros wd1 buf b wd' buf' b' Hb Hp.
    apply pass_searching_inv in Hp as (q & wd2 & pp & _ & Hl & _).
    apply (Hlookup (log wd2) b Hb). by rewrite Hl.
  - intros n wd1 buf b wd2 buf' b' Hn HS.
    pose proof (call_state_S _ _ _ _ _ _ _ _ _ Hn) as Hp. rewrite HS in Hp.
    apply pass_searching_inv in Hp as (q & wd' & pp & Hr & Hl & _).
    by exists q, wd', pp.
Qed.

Lemma call_returns_if_threshold_below_half_range_witness :
  (∃ o, ∀ fuel, (Z.to_nat (size_bits LP64) ≤ fuel)%nat →
          de_username_to_uid os_linux "root" 77 fuel world0 = Some o)
  ∧ (∀ n wd1 buf b wd2 buf' b',
       call_state User os_linux "root" 77 n world0 = Searching wd1 buf b →
       call_state User os_linux "root" 77 (S n) world0
       = Searching wd2 buf' b' →
       ∃ q wd' pp,
         realloc os_linux buf b wd1 = (Some q, wd')
         ∧ os_getpwnam_r os_linux (log wd') "root" b = (34, pp)).
Proof.
  apply (call_returns_if_threshold_below_half_range
           User os_linux "root" 77 world0 4096).
  - vm_compute. discriminate.
  - intros l n Hn. simpl.
    destruct (Z.ltb_spec n 4096); [lia|]. simpl. discriminate.
Defined.

(** In [os_oversized_record] every pass with a length of at most 2^31 goes
    back to [again] with the length doubled modulo 2^32. *)
Lemma oversized_record_again name uid wd buf b :
  b ≤ 2 ^ 31 →
  ∃ wd' q,
    de_username_to_uid_again os_oversized_record name uid wd buf b
    = Searching wd' (Some q) ((b * 2) mod 2 ^ 32).
Proof.
  intros Hb. unfold de_username_to_uid_again, realloc, getpwnam_r.
  cbn [os_oversized_record os_realloc_zero_frees os_realloc_grants
       os_getpwnam_r os_model ERANGE].
  rewrite andb_false_r.
  destruct (Z.leb_spec b (2 ^ 31)); [|lia].
  destruct buf as [p|]; cbn [fst snd log_event log]; by eexists _, _.
Qed.

(** The lengths of that run: powers of two up to 2^31, then 0 for good. *)
Lemma oversized_record_searching n :
  ∃ wd buf b,
    state_after (de_username_to_uid_again os_oversized_record "root" 0) n
      (de_username_to_uid_entry os_oversized_record world0)
    = Searching wd buf b
    ∧ (b = 0 ∨ ∃ k, 10 ≤ k ≤ 31 ∧ b = 2 ^ k).
Proof.
  induction n as [|n (wd & buf & b & Hn & Hb)].
  - eexists _, _, _. split; [reflexivity|]. right. exists 10. by vm_compute.
  - rewrite state_after_S, Hn.
    assert (Hle : b ≤ 2 ^ 31).
    { destruct Hb as [->|(k & Hk & ->)]; [done|].
      apply Z.pow_le_mono_r; lia. }
    destruct (oversized_record_again "root" 0 wd buf b Hle) as (wd' & q & ->).
    eexists _, _, _. split; [reflexivity|].
    destruct Hb as [->|(k & Hk & ->)]; [by left|].
    destruct (decide (k = 31)) as [->|Hne]; [by left|].
    right. exists (k + 1). split; [lia|].
    rewrite Z.pow_add_r by lia.
    assert (2 ^ k ≤ 2 ^ 30) by (apply Z.pow_le_mono_r; lia).
    assert (0 < 2 ^ k) by (apply Z.pow_pos_nonneg; lia).
    rewrite Z.mod_small; lia.
Qed.

(** C6 as stated fails: in [os_oversized_record] the lookup reports
    something other than ERANGE for every length from 2^31 + 1 on, and yet
    the call never returns: the lengths double up to 2^31, wrap to 0 and
    stay there. *)
Lemma call_loops_forever_after_wrap :
  (∀ l n, 2 ^ 31 + 1 ≤ n →
     (os_getpwnam_r os_oversized_record l "root" n).1
     ≠ Z.pos (ERANGE os_oversized_record))
  ∧ (∀ fuel, de_username_to_uid os_oversized_record "root" 0 fuel world0 = None).
Proof.
  split.
  - intros l n Hn. simpl. destruct (Z.leb_spec n (2 ^ 31)); [lia|]. done.
  - intros fuel. unfold de_username_to_uid. rewrite goto_again_state_after.
    by destruct (oversized_record_searching fuel) as (wd & buf & b & -> & _).
Qed.

(** ** Every state of a call *)

(** A state of a call is the entry state, or follows a searching state by a
    pass, or is a returned state that stays. *)
Lemma call_state_ind c os name id wd (P : nat → state → Prop) :
  P O (de_name_to_id_entry c os wd) →
  (∀ n wd1 buf b s,
     call_state c os name id n wd = Searching wd1 buf b →
     P n (Searching wd1 buf b) →
     pass (database_of c) os name id wd1 buf b s → P (S n) s) →
  (∀ n wd1 ret out,
     P n (Returned wd1 ret out) → P (S n) (Returned wd1 ret out)) →
  ∀ n, P n (call_state c os name id n wd).
Proof.
  intros H0 Hpass Hstay. induction n as [|n IH]; [exact H0|].
  destruct (call_state c os name id n wd) as [wd1 buf b|wd1 ret out] eqn:Hn.
  - apply (Hpass n wd1 buf b); [done|done|]. by apply call_state_S.
  - unfold call_state in *.
    rewrite (state_after_stable _ n (S n) _ _ _ _ Hn) by lia. by apply Hstay.
Qed.

Lemma call_state_1 c os name id wd :
  pass (database_of c) os name id
    (log_event
       (EvSysconf (db_sysconf_name (database_of c))
          (os_sysconf os (log wd) (db_sysconf_name (database_of c)))) wd)
    None (first_buflen c os wd)
    (call_state c os name id 1 wd).
Proof. apply (call_state_S c os name id 0 wd), entry_state. Qed.

Lemma call_buflen_doubled c os name id n wd :
  buflen_doubled c os wd n (call_state c os name id n wd).
Proof.
  apply call_state_ind.
  - rewrite entry_state. simpl. fold (first_buflen c os wd).
    rewrite Z.mul_1_r. symmetry. apply to_size_small.
    pose proof (initial_buflen_range (os_model os)
      (os_sysconf os (log wd) (db_sysconf_name (database_of c)))).
    unfold first_buflen. lia.
  - intros k wd1 buf b s _ Hb Hp. simpl in Hb.
    destruct Hp; simpl; try done.
    rewrite Hb. unfold to_size.
    rewrite Z.mul_mod_idemp_l by (pose proof (size_mod_pos (os_model os)); lia).
    rewrite Nat2Z.inj_succ, Z.pow_succ_r by lia. f_equal. lia.
  - done.
Qed.

(** The lengths tried by a call are the first length times the powers of
    two, in [size_t]: a call that is still searching after [n] passes is
    about to ask for [first_buflen * 2 ^ n] modulo [2 ^ size_bits] bytes. *)
Theorem buflen_after_n_passes c os name id n wd wd1 buf b :
  call_state c os name id n wd = Searching wd1 buf b →
  b = to_size (os_model os) (first_buflen c os wd * 2 ^ Z.of_nat n).
Proof.
  intros Hn. pose proof (call_buflen_doubled c os name id n wd) as Hd.
  by rewrite Hn in Hd.
Qed.

Lemma buflen_after_n_passes_witness :
  4096 = to_size LP64 (first_buflen User os_linux world0 * 2 ^ Z.of_nat 2).
Proof.
  eapply (buflen_after_n_passes User os_linux "root" 77 2 world0).
  vm_compute. reflexivity.
Defined.

(** A granted request puts a block of the length asked for at an address
    that was not live. *)
Lemma realloc_holds_size h0 os buf b wd q wd1 :
  holds h0 buf (heap wd) → realloc os buf b wd = (Some q, wd1) →
  h0 !! q = None ∧ heap wd1 = <[q := b]> h0.
Proof.
  intros Hh H. unfold realloc in H.
  destruct buf as [p|].
  - apply holds_release in Hh.
    destruct (_ && _); [done|].
    destruct (os_realloc_grants _ _ _); [|done].
    injection H as <- <-. simpl. rewrite Hh. split; [|done].
    apply not_elem_of_dom, is_fresh.
  - simpl in Hh. destruct (os_realloc_grants _ _ _); [|done].
    injection H as <- <-. simpl. rewrite Hh. split; [|done].
    apply not_elem_of_dom, is_fresh.
Qed.

Lemma owns_scratch_holds c os name h0 n wd1 buf b :
  owns_scratch c os name h0 n (Searching wd1 buf b) → holds h0 buf (heap wd1).
Proof.
  destruct buf as [q|]; simpl.
  - intros (_ & Hq & b_prev & _ & _ & _ & Hheap & _). eauto.
  - by intros [_ ?].
Qed.

Lemma call_owns_scratch c os name id n wd :
  owns_scratch c os name (heap wd) n (call_state c os name id n wd).
Proof.
  apply call_state_ind.
  - by rewrite entry_state.
  - intros k wd1 buf b s _ Ho Hp. apply owns_scratch_holds in Ho.
    destruct Hp as [| q wd2 pp Hr _ | | |]; simpl; try done.
    destruct (realloc_holds_size _ _ _ _ _ _ _ Ho Hr) as [Hq Hheap].
    split; [done|]. split; [done|].
    exists b, buf, pp, (log wd1). rewrite Hheap.
    by rewrite (realloc_log _ _ _ _ _ _ Hr).
  - done.
Qed.

(** While a call is searching it owns at most one block.  Before the first
    pass it has none and the heap is the caller's.  After a retry its buffer
    is the block the last [realloc] returned; that block is not one of the
    caller's, it has exactly the length the last lookup was given, and it is
    the only difference to the caller's heap. *)
Theorem searching_call_owns_last_block c os name id n wd wd1 buf b :
  call_state c os name id n wd = Searching wd1 buf b →
  match buf with
  | None => n = O ∧ heap wd1 = heap wd
  | Some q =>
    n ≠ O ∧ heap wd !! q = None
    ∧ ∃ b_prev old pp l,
        heap wd1 = <[q := b_prev]> (heap wd)
        ∧ b = to_size (os_model os) (b_prev * 2)
        ∧ log wd1 = db_event (database_of c) name b_prev (Z.pos (ERANGE os)) pp
                      :: EvRealloc old b_prev (Some q) :: l
  end.
Proof.
  intros Hn. pose proof (call_owns_scratch c os name id n wd) as Ho.
  rewrite Hn in Ho. exact Ho.
Qed.

Lemma searching_call_owns_last_block_witness :
  ∃ wd1 q,
    call_state Group os_linux "wheel" 77 1 world1 = Searching wd1 (Some q) 2048
    ∧ heap world1 !! q = None
    ∧ ∃ b_prev old pp l,
        heap wd1 = <[q := b_prev]> (heap world1)
        ∧ 2048 = to_size LP64 (b_prev * 2)
        ∧ log wd1 = EvGetgrnam "wheel" b_prev 34 pp
                      :: EvRealloc old b_prev (Some q) :: l.
Proof.
  eexists _, _. split; [vm_compute; reflexivity|].
  refine (proj2 (searching_call_owns_last_block
                   Group os_linux "wheel" 77 1 world1 _ (Some _) 2048 _)).
  vm_compute. reflexivity.
Defined.

(** ** The calls made by a call *)

Lemma pass_call_trace c os name id l0 wd buf b t s :
  log wd = t ++ l0 →
  searching_trace c os name l0 buf b t →
  pass (database_of c) os name id wd buf b s →
  ∃ t', log (state_world s) = t' ++ l0 ∧ call_trace c os name l0 s t'.
Proof.
  intros Hlog Ht
    [wd1 Hr|q wd1 pp Hr _|q wd1 e Hr _|q wd1 Hr _|q wd1 ec pp Hr _ Hne Hnz];
    simpl; rewrite (realloc_log _ _ _ _ _ _ Hr), Hlog.
  - eexists (_ :: t). split; [done|]. by apply rt_no_memory.
  - eexists (_ :: _ :: t). split; [done|]. by apply st_retry.
  - eexists (_ :: _ :: _ :: t). split; [done|]. by apply rt_found.
  - eexists (_ :: _ :: _ :: t). split; [done|].
    apply rt_failed; [done|done|by right].
  - eexists (_ :: _ :: _ :: t). split; [done|].
    apply rt_failed; [done|done|by left].
Qed.

(** The calls a call makes into the C library, at any moment, on top of the
    log it was entered with: one size query for its own category; then, per
    pass, one [realloc] of the current buffer to the current length and one
    lookup in its own database for the name of the call with that same
    length; every lookup but the last reported ERANGE, and the buffer and
    length of a pass are the block returned and the length doubled by the
    pass before.  A call that has returned ends with a [realloc] that gave
    null, or with a lookup that did not report ERANGE followed by the one
    [free] of the call, of the block of the last [realloc]. *)
Theorem call_follows_protocol c os name id n wd :
  ∃ t, log (state_world (call_state c os name id n wd)) = t ++ log wd
       ∧ match call_state c os name id n wd with
         | Searching _ buf b => searching_trace c os name (log wd) buf b t
         | Returned _ ret _ => returned_trace c os name (log wd) ret t
         end.
Proof.
  apply (call_state_ind c os name id wd
           (λ _ s, ∃ t, log (state_world s) = t ++ log wd
                        ∧ call_trace c os name (log wd) s t)).
  - rewrite entry_state. eexists [_]. split; [done|]. apply st_entry.
  - intros k wd1 buf b s _ (t & Hlog & Ht) Hp.
    by eapply pass_call_trace.
  - done.
Qed.

Lemma db_event_own c name b ec pp :
  other_database c (db_event (database_of c) name b ec pp) = false.
Proof. by destruct c. Qed.

Lemma pass_own c os name id wd buf b s :
  pass (database_of c) os name id wd buf b s →
  ∃ t, log (state_world s) = t ++ log wd
       ∧ Forall (λ e, other_database c e = false) t.
Proof.
  intros [wd1 Hr|q wd1 pp Hr _|q wd1 e Hr _|q wd1 Hr _|q wd1 ec pp Hr _ _ _];
    simpl; rewrite (realloc_log _ _ _ _ _ _ Hr).
  - eexists [_]. split; [done|]. repeat constructor. by destruct c.
  - eexists [_; _]. split; [done|].
    repeat constructor; [apply db_event_own|by destruct c].
  - eexists [_; _; _]. split; [done|].
    repeat constructor; [by destruct c|apply db_event_own|by destruct c].
  - eexists [_; _; _]. split; [done|].
    repeat constructor; [by destruct c|apply db_event_own|by destruct c].
  - eexists [_; _; _]. split; [done|].
    repeat constructor; [by destruct c|apply db_event_own|by destruct c].
Qed.

(** Neither function ever touches the other database: among the calls made
    by [de_username_to_uid] there is no [getgrnam_r] and no size query for
    the group database, and among those of [de_groupname_to_gid] no
    [getpwnam_r] and no size query for the user database. *)
Theorem other_database_never_queried c os name id n wd :
  ∃ t, log (state_world (call_state c os name id n wd)) = t ++ log wd
       ∧ Forall (λ e, other_database c e = false) t.
Proof.
  apply (call_state_ind c os name id wd
           (λ _ s, ∃ t, log (state_world s) = t ++ log wd
                        ∧ Forall (λ e, other_database c e = false) t)).
  - rewrite entry_state. eexists [_]. split; [done|].
    repeat constructor. by destruct c.
  - intros k wd1 buf b s _ (t & Hlog & Ht) Hp.
    destruct (pass_own c os name id wd1 buf b s Hp) as (t' & Hlog' & Ht').
    exists (t' ++ t). simpl in Hlog.
    split; [by rewrite Hlog', Hlog, app_assoc|]. by apply Forall_app.
  - done.
Qed.

(** ** The output cell is not read *)

Lemma resolve_again_same_but_output db os name id id' wd buf b :
  same_but_output id id'
    (resolve_again db os name id wd buf b)
    (resolve_again db os name id' wd buf b).
Proof.
  unfold resolve_again, getnam_r.
  destruct (realloc os buf b wd) as [[q|] wd1]; simpl; [|naive_solver].
  destruct (db_lookup db os (log wd1) name b) as [ec pp]. simpl.
  destruct (ec =? Z.pos (ERANGE os)); [done|].
  destruct (ec =? 0), pp; simpl; naive_solver.
Qed.

Lemma call_state_same_but_output c os name id id' n wd :
  same_but_output id id'
    (call_state c os name id n wd) (call_state c os name id' n wd).
Proof.
  rewrite !call_state_resolve.
  induction n as [|n IH]; [done|].
  rewrite !state_after_S.
  destruct (state_after (resolve_again _ _ _ id) n _) as [wd1 buf b|wd1 ret out],
    (state_after (resolve_again _ _ _ id') n _) as [wd2 buf2 b2|wd2 ret2 out2];
    try done.
  destruct IH as (<- & <- & <-). apply resolve_again_same_but_output.
Qed.

(** The value the output cell holds at the call has no influence on what a
    call does: two calls that differ in it only make the same calls into the
    C library, leave the same heap, return the same value and, on success,
    write the same identifier.  The cell may be uninitialised. *)
Theorem output_cell_is_never_read c os name id id' fuel wd :
  match de_name_to_id c os name id fuel wd,
        de_name_to_id c os name id' fuel wd with
  | Some o, Some o' =>
    out_world o = out_world o' ∧ out_ret o = out_ret o'
    ∧ (out_ret o = 0 → out_id o = out_id o')
  | None, None => True
  | _, _ => False
  end.
Proof.
  rewrite !de_name_to_id_call_state.
  pose proof (call_state_same_but_output c os name id id' fuel wd) as Hs.
  destruct (call_state c os name id fuel wd) as [wd1 buf b|wd1 ret out],
    (call_state c os name id' fuel wd) as [wd2 buf2 b2|wd2 ret2 out2];
    simpl in *; try done.
  destruct Hs as (-> & -> & Hout). do 2 (split; [done|]).
  intros ->. destruct Hout as [[_ ?]|[? _]]; [done|lia].
Qed.

(** ** Calls that need no retry *)

Lemma first_pass_returns c os name id wd :
  (∀ l, (db_lookup (database_of c) os l name (first_buflen c os wd)).1
        ≠ Z.pos (ERANGE os)) →
  ∃ wd' ret out,
    call_state c os name id 1 wd = Returned wd' ret out
    ∧ heap wd' = heap wd.
Proof.
  intros Hlookup.
  pose proof (call_state_1 c os name id wd) as Hp.
  destruct (call_state c os name id 1 wd) as [wd' buf' b'|wd' ret out].
  - apply pass_searching_inv in Hp as (q & wd1 & pp & _ & Hl & _).
    exfalso. apply (Hlookup (log wd1)). by rewrite Hl.
  - exists wd', ret, out. split; [done|].
    assert (Hh : holds (heap wd) None
                   (heap (log_event
                            (EvSysconf (db_sysconf_name (database_of c))
                               (os_sysconf os (log wd)
                                  (db_sysconf_name (database_of c)))) wd)))
      by done.
    inversion Hp as [wd1 Hr|q wd1 pp Hr _|q wd1 e Hr _|q wd1 Hr _
                    |q wd1 ec pp Hr _ _ _]; subst; simpl;
      try (eapply holds_release, realloc_holds; [exact Hh|exact Hr]).
    by rewrite (realloc_null_fresh _ _ _ _ Hr).
Qed.

(** When the lookup with the first buffer does not report ERANGE, a call is
    over after a single pass, whatever the allocator does, and it gives back
    all the memory it took: the leak of a failed growth needs a retry. *)
Theorem no_retry_no_leak c os name id wd :
  (∀ l, (db_lookup (database_of c) os l name (first_buflen c os wd)).1
        ≠ Z.pos (ERANGE os)) →
  ∃ o, (∀ fuel, de_name_to_id c os name id (S fuel) wd = Some o)
       ∧ heap (out_world o) = heap wd.
Proof.
  intros Hlookup.
  destruct (first_pass_returns c os name id wd Hlookup)
    as (wd' & ret & out & H1 & Hheap).
  exists {| out_world := wd'; out_ret := ret; out_id := out |}.
  split; [|done]. intros fuel.
  apply (call_state_returned c os name id 1); [done|lia].
Qed.

Lemma no_retry_no_leak_witness :
  ∃ o, (∀ fuel, de_groupname_to_gid os_linux "broken" 77 (S fuel) world1 = Some o)
       ∧ heap (out_world o) = heap world1.
Proof.
  apply (no_retry_no_leak Group os_linux "broken" 77 world1).
  intros l. vm_compute. discriminate.
Defined.

(** A name the database does not know, the empty name for one: if the
    lookup finds no entry for the name, every call for it returns -1 after a
    single pass, with the output cell and the heap as they were, whether
    memory is to be had or not. *)
Theorem unknown_name_fails_cleanly c os name id wd :
  (∀ l b, db_lookup (database_of c) os l name b = (0, None)) →
  ∃ o, (∀ fuel, de_name_to_id c os name id (S fuel) wd = Some o)
       ∧ out_ret o = -1 ∧ out_id o = id ∧ heap (out_world o) = heap wd.
Proof.
  intros Hunknown.
  destruct (first_pass_returns c os name id wd)
    as (wd' & ret & out & H1 & Hheap).
  { intros l. by rewrite Hunknown. }
  exists {| out_world := wd'; out_ret := ret; out_id := out |}. simpl.
  split; [intros fuel; apply (call_state_returned c os name id 1); [done|lia]|].
  pose proof (call_state_1 c os name id wd) as Hp. rewrite H1 in Hp.
  inversion Hp as [wd1 Hr|q wd1 pp Hr Hl|q wd1 e Hr Hl|q wd1 Hr Hl
                  |q wd1 ec pp Hr Hl Hne Hnz]; subst; try done;
    rewrite Hunknown in Hl; simplify_eq.
Qed.

Lemma unknown_name_fails_cleanly_witness :
  ∃ o, (∀ fuel, de_username_to_uid os_low_memory "" 77 (S fuel) world1 = Some o)
       ∧ out_ret o = -1 ∧ out_id o = 77 ∧ heap (out_world o) = heap world1.
Proof.
  apply (unknown_name_fails_cleanly User os_low_memory "" 77 world1).
  intros l b. reflexivity.
Defined.

(** ** Where [realloc(p, 0)] frees *)

Lemma realloc_zero_frees os q wd :
  os_realloc_zero_frees os = true →
  ∃ wd1, realloc os (Some q) 0 wd = (None, wd1).
Proof. intros Hz. unfold realloc. rewrite Hz. simpl. eauto. Qed.

(** Where [realloc(p, 0)] releases [p] and returns null, every call returns
    after [size_bits + 1] passes at most, whatever the allocator grants and
    whatever the database answers: by then the length, doubled at each
    retry, has wrapped to 0 and the growth to 0 bytes ends the call. *)
Theorem call_returns_if_realloc_zero_frees c os name id wd :
  os_realloc_zero_frees os = true →
  ∃ o, ∀ fuel, (S (Z.to_nat (size_bits (os_model os))) ≤ fuel)%nat →
         de_name_to_id c os name id fuel wd = Some o.
Proof.
  intros Hz. pose proof (size_bits_ge (os_model os)) as Hbits.
  set (n := Z.to_nat (size_bits (os_model os))).
  assert (∃ wd' ret out,
            call_state c os name id (S n) wd = Returned wd' ret out)
    as (wd' & ret & out & Hret).
  { destruct (call_state c os name id n wd) as [wd1 buf b|wd1 ret out] eqn:Hn.
    - pose proof (call_buflen_doubled c os name id n wd) as Hb.
      pose proof (call_owns_scratch c os name id n wd) as Ho.
      rewrite Hn in Hb, Ho. simpl in Hb.
      assert (b = 0) as ->.
      { rewrite Hb. unfold to_size, n. rewrite Z2Nat.id by lia.
        apply Z.mod_mul. pose proof (size_mod_pos (os_model os)). lia. }
      destruct buf as [q|]; simpl in Ho; [|unfold n in Ho; lia].
      destruct (realloc_zero_frees os q wd1 Hz) as [wd2 Hr].
      exists wd2, (-1), id.
      eapply pass_no_memory_inv; [by apply call_state_S|exact Hr].
    - exists wd1, ret, out. unfold call_state in *.
      by rewrite (state_after_stable _ n (S n) _ _ _ _ Hn) by lia. }
  exists {| out_world := wd'; out_ret := ret; out_id := out |}.
  intros fuel Hfuel. by apply (call_state_returned c os name id (S n)).
Qed.

Lemma call_returns_if_realloc_zero_frees_witness :
  ∃ o, ∀ fuel, (S (Z.to_nat (size_bits LP64)) ≤ fuel)%nat →
         de_username_to_uid os_always_erange "root" 77 fuel world0 = Some o.
Proof.
  exact (call_returns_if_realloc_zero_frees User os_always_erange "root" 77
           world0 eq_refl).
Defined.

(** In [os_always_erange] the lengths go from 2^10 to 2^63 in 54 passes; the
    55th asks for 0 bytes and ends the call, with nothing left allocated. *)
Example wrap_to_zero_ends_the_call :
  de_username_to_uid os_always_erange "root" 77 54 world0 = None
  ∧ option_map (λ o, (out_ret o, out_id o, heap (out_world o)))
      (de_username_to_uid os_always_erange "root" 77 55 world0)
    = Some (-1, 77, ∅).
Proof. split; vm_compute; reflexivity. Qed.

(** ** Calls do not depend on one another *)

Lemma history_free_lookup c os l l' name b :
  history_free os →
  db_lookup (database_of c) os l name b = db_lookup (database_of c) os l' name b.
Proof. intros (_ & _ & Hpw & Hgr). destruct c; [apply Hpw|apply Hgr]. Qed.

Lemma realloc_same_point os buf buf' b wd wd' :
  history_free os → (buf = None ↔ buf' = None) →
  (realloc os buf b wd).1 = None ↔ (realloc os buf' b wd').1 = None.
Proof.
  intros (_ & Hgrants & _) [Hbuf Hbuf']. unfold realloc.
  rewrite (Hgrants (log wd') (log wd)).
  destruct buf as [p|], buf' as [p'|].
  - destruct (_ && _); [done|].
    destruct (os_realloc_grants _ _ _); by split.
  - discriminate (Hbuf' eq_refl).
  - discriminate (Hbuf eq_refl).
  - destruct (os_realloc_grants _ _ _); by split.
Qed.

Lemma resolve_again_same_point c os name id wd wd' buf buf' b :
  history_free os → (buf = None ↔ buf' = None) →
  same_point
    (resolve_again (database_of c) os name id wd buf b)
    (resolve_again (database_of c) os name id wd' buf' b).
Proof.
  intros Hfree Hbuf.
  pose proof (realloc_same_point os buf buf' b wd wd' Hfree Hbuf) as [H1 H2].
  unfold resolve_again, getnam_r.
  destruct (realloc os buf b wd) as [[q|] wd1],
    (realloc os buf' b wd') as [[q'|] wd2]; simpl in *;
    [|discriminate (H2 eq_refl)|discriminate (H1 eq_refl)|done].
  rewrite (history_free_lookup c os (log wd2) (log wd1) name b Hfree).
  destruct (db_lookup (database_of c) os (log wd1) name b) as [ec pp]. simpl.
  destruct (ec =? Z.pos (ERANGE os)); [by split|].
  by destruct (ec =? 0), pp.
Qed.

Lemma call_state_same_point c os name id n wd wd' :
  history_free os →
  same_point (call_state c os name id n wd) (call_state c os name id n wd').
Proof.
  intros Hfree. rewrite !call_state_resolve.
  induction n as [|n IH].
  - simpl. pose proof Hfree as (Hsys & _).
    by rewrite (Hsys (log wd') (log wd)).
  - rewrite !state_after_S.
    destruct (state_after _ n (resolve_entry _ os wd)) as [wd1 buf b|wd1 ret out],
      (state_after _ n (resolve_entry _ os wd')) as [wd2 buf2 b2|wd2 ret2 out2];
      try done.
    destruct IH as [<- Hbuf]. by apply resolve_again_same_point.
Qed.

(** The functions keep no state of their own: in an environment whose
    answers do not depend on the past, the result of a call (the return
    value and the content of the output cell) is the same from whatever log
    and heap it starts, so that an earlier call, even one that leaked its
    buffer, does not change the result of a later one. *)
Theorem result_independent_of_earlier_calls c os name id fuel wd wd' o :
  history_free os →
  de_name_to_id c os name id fuel wd = Some o →
  ∃ o', de_name_to_id c os name id fuel wd' = Some o'
        ∧ out_ret o' = out_ret o ∧ out_id o' = out_id o.
Proof.
  intros Hfree. rewrite !de_name_to_id_call_state.
  pose proof (call_state_same_point c os name id fuel wd wd' Hfree) as Hs.
  destruct (call_state c os name id fuel wd) as [wd1 buf b|wd1 ret out],
    (call_state c os name id fuel wd') as [wd2 buf2 b2|wd2 ret2 out2];
    simpl in *; try done.
  destruct Hs as [<- <-]. intros [= <-]. by eexists.
Qed.

Lemma os_low_memory_history_free : history_free os_low_memory.
Proof. by repeat split. Defined.

Lemma result_independent_of_earlier_calls_witness :
  ∃ o o',
    de_username_to_uid os_low_memory "root" 77 2 world0 = Some o
    ∧ de_username_to_uid os_low_memory "root" 77 2 (out_world o) = Some o'
    ∧ heap (out_world o) ≠ heap world0
    ∧ out_ret o' = out_ret o ∧ out_id o' = out_id o.
Proof.
  eexists _, _. split; [vm_compute; reflexivity|].
  split; [vm_compute; reflexivity|].
  split; [intros H; vm_compute in H; discriminate H|].
  destruct (result_independent_of_earlier_calls
              User os_low_memory "root" 77 2 world0
              (out_world
                 {| out_world :=
                      {| log := [EvRealloc (Some 1%positive) 2048 None;
                                 EvGetpwnam "root" 1024 34 None;
                                 EvRealloc None 1024 (Some 1%positive);
                                 EvSysconf _SC_GETPW_R_SIZE_MAX 1024];
                         heap := {[1%positive := 1024]} |};
                    out_ret := -1; out_id := 77 |})
              _ os_low_memory_history_free eq_refl)
    as (o' & Ho' & Hret & Hid).
  vm_compute in Ho'. injection Ho' as <-. split; reflexivity.
Defined.
